(** * ts-slack-bot: a chat-operated deployment dispatcher (main.go)

    A shallow embedding of [main.go]: the startup channel guard, the event
    loop over the RTM feed, the two command handlers [podsCmd] and
    [deployCmd], and the properties of the specification stated over them.

    The program talks to four outside parties: the Slack API, the GitHub
    API, [kubectl] run as a subprocess, and two libraries (shellwords and
    the cli framework).  Their answers are inputs of the model; every call
    the program makes to one of them is recorded, in program order, as an
    [effect]. *)

From Stdlib Require Import String Ascii List Bool Arith Lia DecimalString.
Import ListNotations.
Local Open Scope string_scope.
Local Open Scope list_scope.

(** Go writes string concatenation [a + b]; it associates to the left. *)
Notation "a +++ b" := (String.append a b) (at level 50, left associativity).

(** ** Fragments of the Go runtime and standard library *)

Module Go.

(** A Go [error] value, identified with its message. *)
Definition error := string.

(** Run-time panics the program can raise. *)
Inductive panic :=
| SliceBoundsOutOfRange (high len : nat)
| IndexOutOfRange (index len : nat).

Inductive outcome (A : Type) :=
| Done (a : A)
| Panicked (p : panic).
Arguments Done {A} a.
Arguments Panicked {A} p.

(** [len(s)] of a string: its number of bytes. *)
Definition len (s : string) : nat := String.length s.

(** The slice expression [s[low:high]] on a string: it panics unless
    [low <= high <= len(s)]. *)
Definition slice (s : string) (low high : nat) : outcome string :=
  if ((low <=? high)%nat && (high <=? len s)%nat)%bool
  then Done (substring low (high - low) s)
  else Panicked (SliceBoundsOutOfRange high (len s)).

(** The index expression [a[0]] on a slice of strings. *)
Definition first (a : list string) : outcome string :=
  match a with
  | x :: _ => Done x
  | [] => Panicked (IndexOutOfRange 0 0)
  end.

(** [strings.HasPrefix(s, prefix)]. *)
Definition HasPrefix (s prefix : string) : bool := String.prefix prefix s.

(** [strings.TrimPrefix(s, prefix)]. *)
Definition TrimPrefix (s prefix : string) : string :=
  if HasPrefix s prefix
  then substring (len prefix) (len s - len prefix) s
  else s.

(** The verb [%d] of [fmt.Sprintf] on a non-negative [int]. *)
Definition Itoa (n : nat) : string := NilEmpty.string_of_uint (Nat.to_uint n).

(** [errors.Errorf] with a constant format, and [errors.WithStack]. *)
Definition Errorf (msg : string) : error := msg.
Definition WithStack (e : error) : error := e.

End Go.
Export Go.

(** ** Data of the libraries the program uses *)

Module github.
(** [github.RepositoryCommit]; of its fields the program reads [SHA],
    a [*string]: [None] is the nil pointer. *)
Record RepositoryCommit := { SHA : option string }.

(** The client built by [githubClientFromENV], known by its token. *)
Record Client := { AccessToken : string }.
End github.

Module slack.
Record AuthTestResponse := { UserID : string }.

Record Channel := { ID : string; Members : list string }.

Record MessageEvent := { User : string; Text : string; Channel_ : string }.

(** The dynamic type of [RTMEvent.Data], as the type switch of [run]
    sees it. *)
Inductive EventData :=
| HelloEvent
| Message (cc : MessageEvent)
| OtherEvent (type_name : string).

Record RTMEvent := { Type_ : string; Data : EventData }.

(** What [%T] prints for the event's data. *)
Definition type_name (d : EventData) : string :=
  match d with
  | HelloEvent => "*slack.HelloEvent"
  | Message _ => "*slack.MessageEvent"
  | OtherEvent n => n
  end.

(** What a client answers at startup, and the feed of its RTM
    connection up to the point where the feed is closed. *)
Record Client := {
  AuthTest : AuthTestResponse * option error;
  GetChannels : bool -> list Channel * option error;
  IncomingEvents : list RTMEvent
}.
End slack.

Module cli.
(** The parsed flags of one invocation: names with their values. *)
Definition Context := list (string * string).

(** [ctx.String(name)]: the flag's value, or the empty string. *)
Fixpoint String_ (ctx : Context) (name : string) : string :=
  match ctx with
  | [] => ""
  | (n, v) :: rest => if n =? name then v else String_ rest name
  end.

Inductive Flag := StringFlag (Name : string).

Record Command (action : Type) := {
  Name : string;
  Action : action;
  Flags : list Flag
}.
Arguments Name {action} c.
Arguments Action {action} c.
Arguments Flags {action} c.
End cli.

(** The configuration read from the environment. *)
Record handler := {
  SlackToken : string;
  GithubToken : string;
  GithubOrg : string;
  GithubRepo : string;
  DockerImagePrefix : string;
  K8sNamespace : string;
  K8sDeployment : string
}.

(** ** Effects *)

(** What the program does to the outside, in the order it does it. *)
Inductive effect :=
| Log (format : string) (args : list string)
    (* l.Printf / log.Printf: the local log *)
| SendMessage (text channel : string)
    (* rtm.SendMessage(rtm.NewOutgoingMessage(text, channel)) *)
| ListCommits (owner repo : string)
    (* cl.Repositories.ListCommits(ctx, owner, repo, nil) *)
| Exec (name : string) (arg : list string).
    (* exec.Command(name, arg...).CombinedOutput() *)

(** The chat messages of a trace, as (text, channel). *)
Fixpoint sent (t : list effect) : list (string * string) :=
  match t with
  | [] => []
  | SendMessage s c :: t' => (s, c) :: sent t'
  | _ :: t' => sent t'
  end.

(** The subprocess calls of a trace. *)
Fixpoint execs (t : list effect) : list (string * list string) :=
  match t with
  | [] => []
  | Exec n a :: t' => (n, a) :: execs t'
  | _ :: t' => execs t'
  end.

(** The commit fetches of a trace, as (owner, repo). *)
Fixpoint fetches (t : list effect) : list (string * string) :=
  match t with
  | [] => []
  | ListCommits o r :: t' => (o, r) :: fetches t'
  | _ :: t' => fetches t'
  end.

(** The revision closure of [deployCmd] (main.go, lines 160-168): the
    first commit whose [SHA] is not nil decides, by the slice [s[0:12]]. *)
Fixpoint resolve_sha (lst : list github.RepositoryCommit) : outcome string :=
  match lst with
  | [] => Done ""
  | c :: rest =>
      match github.SHA c with
      | Some s => slice s 0 12
      | None => resolve_sha rest
      end
  end.

(** The membership closure of [run] (lines 73-80). *)
Fixpoint is_member (members : list string) (user : string) : bool :=
  match members with
  | [] => false
  | m :: rest => if m =? user then true else is_member rest user
  end.

(** The loop of [run] that collects [chans] (lines 71-84). *)
Fixpoint member_channels (lst : list slack.Channel) (user : string) : list string :=
  match lst with
  | [] => []
  | c :: rest =>
      if is_member (slack.Members c) user
      then slack.ID c :: member_channels rest user
      else member_channels rest user
  end.

(** How the process ends. *)
Inductive exit :=
| Returned
| Fatal (msg : string).

(** ** A scripted outside world, for concrete runs *)

Module Script.

(** The answers of GitHub and of [kubectl], fixed in advance. *)
Record world := {
  commits : list github.RepositoryCommit * option error;
  kubectl : list string -> string * option error
}.

Definition CombinedOutput (name : string) (arg : list string) (w : world)
  : (string * option error) * world :=
  (kubectl w arg, w).

Definition ListCommits (cl : github.Client) (owner repo : string) (w : world)
  : (list github.RepositoryCommit * option error) * world :=
  (commits w, w).

(** A tokenizer that splits at spaces and knows no quoting. *)
Fixpoint fields (s cur : string) : list string :=
  match s with
  | EmptyString => if cur =? "" then [] else [cur]
  | String c rest =>
      if Ascii.eqb c " "
      then (if cur =? "" then fields rest "" else cur :: fields rest "")
      else fields rest (cur +++ String c "")
  end.

Definition Parse (s : string) : list string * option error :=
  (fields s "", None).

(** A framework that names the token it does not know, and reads
    [--namespace value] pairs. *)
Definition usage (args : list string) : string :=
  "No help topic for '" +++ hd "" args +++ "'".

Fixpoint parse (flags : list cli.Flag) (args : list string)
  : cli.Context + string :=
  match args with
  | [] => inl []
  | f :: [] => inr "Incorrect Usage."
  | f :: v :: rest =>
      if f =? "--namespace"
      then match parse flags rest with
           | inl ctx => inl (("namespace", v) :: ctx)
           | inr text => inr text
           end
      else inr "Incorrect Usage."
  end.

Definition Getenv (key : string) : string :=
  if key =? "DOCKER_IMAGE_PREFIX" then "myimage"
  else if key =? "K8S_NAMESPACE" then "prod"
  else if key =? "K8S_DEPLOYMENT" then "web"
  else if key =? "GITHUB_ORG" then "org"
  else if key =? "GITHUB_REPO" then "repo"
  else "".

Definition config : handler :=
  {| SlackToken := ""; GithubToken := ""; GithubOrg := "org";
     GithubRepo := "repo"; DockerImagePrefix := "myimage";
     K8sNamespace := "prod"; K8sDeployment := "web" |}.

Definition commit (sha : string) : github.RepositoryCommit :=
  {| github.SHA := Some sha |}.

Definition no_sha : github.RepositoryCommit := {| github.SHA := None |}.

Definition ok (out : string) : string * option error := (out, None).
Definition failed (out : string) : string * option error :=
  (out, Some "exit status 1").

(** [kubectl] answers by its subcommand. *)
Definition by_subcommand (set_image rollout get : string * option error)
    (arg : list string) : string * option error :=
  if existsb (String.eqb "set") arg then set_image
  else if existsb (String.eqb "rollout") arg then rollout
  else get.

(** A Slack client in the channels listed, with a feed. *)
Definition client (user : string) (channels : list slack.Channel)
    (feed : list slack.RTMEvent) (token : string) : slack.Client :=
  {| slack.AuthTest := ({| slack.UserID := user |}, None);
     slack.GetChannels := fun _ => (channels, None);
     slack.IncomingEvents := feed |}.

(** The world in which GitHub returns [lst] and [kubectl] answers as
    given. *)
Definition scripted (lst : list github.RepositoryCommit)
    (set_image rollout get : string * option error) : world :=
  {| commits := (lst, None);
     kubectl := by_subcommand set_image rollout get |}.

Definition message (user text channel : string) : slack.RTMEvent :=
  {| slack.Type_ := "message";
     slack.Data := slack.Message
       {| slack.User := user; slack.Text := text; slack.Channel_ := channel |} |}.

Definition hello : slack.RTMEvent :=
  {| slack.Type_ := "hello"; slack.Data := slack.HelloEvent |}.


(** A tokenizer that rejects every text. *)
Definition unparsable (s : string) : list string * option error :=
  ([], Some "invalid command line string").

(** A Slack client whose handshake fails, and one whose channel listing
    fails. *)
Definition refused (feed : list slack.RTMEvent) (token : string)
  : slack.Client :=
  {| slack.AuthTest := ({| slack.UserID := "" |}, Some "invalid_auth");
     slack.GetChannels := fun _ => ([], None);
     slack.IncomingEvents := feed |}.

Definition unlisted (user : string) (feed : list slack.RTMEvent)
    (token : string) : slack.Client :=
  {| slack.AuthTest := ({| slack.UserID := user |}, None);
     slack.GetChannels := fun _ => ([], Some "ratelimited");
     slack.IncomingEvents := feed |}.

Definition typing : slack.RTMEvent :=
  {| slack.Type_ := "user_typing";
     slack.Data := slack.OtherEvent "*slack.UserTypingEvent" |}.

End Script.

Section Bot.

(** The state of everything outside the process. *)
Variable World : Type.

(** [exec.Command(name, arg...).CombinedOutput()]: output and error. *)
Variable CombinedOutput :
  string -> list string -> World -> (string * option error) * World.

(** [cl.Repositories.ListCommits]: the commits and the error. *)
Variable Repositories_ListCommits :
  github.Client -> string -> string -> World ->
  (list github.RepositoryCommit * option error) * World.

(** [slack.New(token)] with the RTM connection made from it. *)
Variable slack_New : string -> slack.Client.

(** [shellwords.Parse]. *)
Variable shellwords_Parse : string -> list string * option error.

(** [os.Getenv]. *)
Variable Getenv : string -> string.

(** Text of the cli framework: what it writes for a token list that
    names no command, and how it reads a command's tokens against the
    declared flags (on the right: the usage text it writes instead). *)
Variable cli_usage : list string -> string.
Variable cli_parse : list cli.Flag -> list string -> cli.Context + string.

(** *** The monad of the program: effects, the world, panics *)

Record reply (A : Type) := {
  effects : list effect;
  after : World;
  result : outcome A
}.
Arguments effects {A} r.
Arguments after {A} r.
Arguments result {A} r.

Definition M (A : Type) := World -> reply A.

Definition ret {A} (a : A) : M A :=
  fun w => {| effects := []; after := w; result := Done a |}.

Definition bind {A B} (m : M A) (k : A -> M B) : M B :=
  fun w =>
    let r := m w in
    match result r with
    | Done a =>
        let r' := k a (after r) in
        {| effects := effects r ++ effects r';
           after := after r';
           result := result r' |}
    | Panicked p =>
        {| effects := effects r; after := after r; result := Panicked p |}
    end.

Definition emit (e : effect) : M unit :=
  fun w => {| effects := [e]; after := w; result := Done tt |}.

(** A pure computation that may panic. *)
Definition lift {A} (o : outcome A) : M A :=
  fun w => {| effects := []; after := w; result := o |}.

Definition exec (name : string) (arg : list string) : M (string * option error) :=
  fun w =>
    let '(r, w') := CombinedOutput name arg w in
    {| effects := [Exec name arg]; after := w'; result := Done r |}.

Definition list_commits (cl : github.Client) (owner repo : string)
  : M (list github.RepositoryCommit * option error) :=
  fun w =>
    let '(r, w') := Repositories_ListCommits cl owner repo w in
    {| effects := [ListCommits owner repo]; after := w'; result := Done r |}.

Notation "x <- m ;; k" := (bind m (fun x => k))
  (at level 61, m at next level, right associativity).
Notation "' pat <- m ;; k" := (bind m (fun x => match x with pat => k end))
  (at level 61, pat pattern, m at next level, right associativity).
Notation "m ;; k" := (bind m (fun _ => k))
  (at level 61, right associativity).

(** *** The handlers *)

Definition printer := string -> M unit.

(** The printer [run] builds for a message (lines 108-111). *)
Definition chat_printer (channel : string) : printer :=
  fun s => emit (SendMessage s channel).

Definition githubClientFromENV (h : handler) : github.Client * option error :=
  ({| github.AccessToken := GithubToken h |}, None).

Definition deployCmd (h : handler) (p : printer) (ctx : cli.Context)
  : M (option error) :=
  p "about to deploy" ;;
  let (cl, err) := githubClientFromENV h in
  match err with
  | Some e => ret (Some (WithStack e))
  | None =>
  ' (lst, err) <- list_commits cl (GithubOrg h) (GithubRepo h) ;;
  match err with
  | Some e => ret (Some (WithStack e))
  | None =>
  sha <- lift (resolve_sha lst) ;;
  if sha =? "" then ret (Some (Errorf "no sha found")) else
  p (Itoa (length lst) +++ " commits") ;;
  let image := DockerImagePrefix h +++ ":" +++ sha in
  p ("deploying image " +++ image) ;;
  ' (b, err) <- exec "kubectl"
      ["-n"; K8sNamespace h; "set"; "image";
       "deployments/" +++ K8sDeployment h; "*=" +++ image] ;;
  match err with
  | Some _ => p ("ERROR: " +++ b) ;; ret None
  | None =>
  p b ;;
  ' (b, err) <- exec "kubectl"
      ["-n"; K8sNamespace h; "rollout"; "status";
       "deployments/" +++ K8sDeployment h] ;;
  match err with
  | Some _ => p ("ERROR: " +++ b) ;; ret None
  | None =>
  p b ;;
  p "finished deployment" ;;
  ret None
  end end end end.

Definition podsCmd (p : printer) (ctx : cli.Context) : M (option error) :=
  p "about to list pods" ;;
  let args := ["get"; "pods"] in
  let n := cli.String_ ctx "namespace" in
  let args := if n =? "" then args else args ++ ["-n"; n] in
  ' (b, err) <- exec "kubectl" args ;;
  match err with
  | Some _ => emit (Log "err=%q" [b])
  | None => p ("```" +++ b +++ "```")
  end ;;
  ret None.

(** *** The command framework *)

Definition action := cli.Context -> M (option error).

(** [cli.App] as [run] fills it in.  [Writer] and [ErrWriter] are both
    set to the message's buffer, so the framework's text has one
    destination; [App_Run] returns what was written there. *)
Record App := {
  App_Name : string;
  Commands : list (cli.Command action);
  ExitErrHandler : cli.Context -> error -> M unit
}.

Fixpoint App_Command (cs : list (cli.Command action)) (name : string)
  : option (cli.Command action) :=
  match cs with
  | [] => None
  | c :: rest => if cli.Name c =? name then Some c else App_Command rest name
  end.

(** Modelled from the spec: the dispatch of the command framework,
    the [Run] method of [cli.App], a library whose code is not part of
    main.go.
    Given the token list [[name, ...args]] (after the program name),
    [name] is looked up in the command table.  An unknown command has
    the framework's usage or error text written to the buffer and no
    handler invoked.  A known command has its remaining tokens parsed
    against the declared flags and then its handler invoked; an error
    the handler returns goes to [ExitErrHandler] and no further. *)
Definition App_Run (a : App) (arguments : list string) : M string :=
  match tl arguments with
  | [] => ret (cli_usage [])
  | name :: args =>
      match App_Command (Commands a) name with
      | None => ret (cli_usage (name :: args))
      | Some c =>
          match cli_parse (cli.Flags c) args with
          | inr text => ret text
          | inl ctx =>
              err <- cli.Action c ctx ;;
              match err with
              | Some e => ExitErrHandler a ctx e ;; ret ""
              | None => ret ""
              end
          end
      end
  end.

Definition adapt (p : printer) (f : printer -> cli.Context -> M (option error))
  : action :=
  fun ctx => f p ctx.

(** *** The event loop *)

(** The [cli.App] built for one message (lines 113-124). *)
Definition app (h : handler) (p : printer) : App :=
  {| App_Name := "GDG Bot";
     Commands :=
       [ {| cli.Name := "pods"; cli.Action := adapt p podsCmd;
            cli.Flags := [cli.StringFlag "namespace"] |};
         {| cli.Name := "deploy"; cli.Action := adapt p (deployCmd h);
            cli.Flags := [] |} ];
     ExitErrHandler := fun _ _ => ret tt |}.

(** The body of the loop over [rtm.IncomingEvents] (lines 94-135);
    [continue] ends the body. *)
Definition on_event (h : handler) (UserID channelID : string)
    (c : slack.RTMEvent) : M unit :=
  emit (Log "%s %T" [slack.Type_ c; slack.type_name (slack.Data c)]) ;;
  match slack.Data c with
  | slack.HelloEvent => emit (SendMessage "Hi there" channelID)
  | slack.Message cc =>
      if slack.User cc =? UserID then ret tt else
      if negb (HasPrefix (slack.Text cc) "!") then ret tt else
      let printer := chat_printer (slack.Channel_ cc) in
      let a := app h printer in
      let (args, err) := shellwords_Parse (TrimPrefix (slack.Text cc) "!") in
      match err with
      | Some e => printer ("error: " +++ e)
      | None =>
          buf <- App_Run a ("foo" :: args) ;;
          if (0 <? len buf)%nat
          then printer ("```" +++ buf +++ "```")
          else ret tt
      end
  | slack.OtherEvent _ => ret tt
  end.

Fixpoint range_events (h : handler) (UserID channelID : string)
    (feed : list slack.RTMEvent) : M unit :=
  match feed with
  | [] => ret tt
  | c :: rest =>
      on_event h UserID channelID c ;;
      range_events h UserID channelID rest
  end.

(** [run] (lines 55-138): the channel guard, then the loop over the feed
    until the feed is closed.  The connection manager that [run] starts
    with [go] works beside it and is outside the model. *)
Definition run (h : handler) : M (option error) :=
  let cl := slack_New (SlackToken h) in
  let (rsp, err) := slack.AuthTest cl in
  match err with
  | Some e => ret (Some e)
  | None =>
  emit (Log (slack.UserID rsp) []) ;;
  let (lst, err) := slack.GetChannels cl true in
  match err with
  | Some e => ret (Some (WithStack e))
  | None =>
  let chans := member_channels lst (slack.UserID rsp) in
  if negb (length chans =? 1)%nat
  then ret (Some (Errorf "must only be in one channel"))
  else
  channelID <- lift (first chans) ;;
  emit (Log "channel=%s" [channelID]) ;;
  range_events h (slack.UserID rsp) channelID (slack.IncomingEvents cl) ;;
  ret None
  end end.

Definition newHandler : handler * option error :=
  ({| SlackToken := Getenv "SLACK_TOKEN";
      GithubToken := Getenv "GITHUB_TOKEN";
      GithubOrg := Getenv "GITHUB_ORG";
      GithubRepo := Getenv "GITHUB_REPO";
      DockerImagePrefix := Getenv "DOCKER_IMAGE_PREFIX";
      K8sNamespace := Getenv "K8S_NAMESPACE";
      K8sDeployment := Getenv "K8S_DEPLOYMENT" |}, None).

(** [main]: an error of [newHandler] or of [run] goes to [log.Fatal]. *)
Definition main : M exit :=
  let (h, err) := newHandler in
  match err with
  | Some e => ret (Fatal e)
  | None =>
      err <- run h ;;
      match err with
      | Some e => ret (Fatal e)
      | None => ret Returned
      end
  end.

(** *** Names for the statements *)

(** The two [kubectl] argument lists of [deployCmd] and the one of
    [podsCmd]. *)
Definition set_image_args (h : handler) (image : string) : list string :=
  ["-n"; K8sNamespace h; "set"; "image";
   "deployments/" +++ K8sDeployment h; "*=" +++ image].

Definition rollout_status_args (h : handler) : list string :=
  ["-n"; K8sNamespace h; "rollout"; "status";
   "deployments/" +++ K8sDeployment h].

Definition get_pods_args (ctx : cli.Context) : list string :=
  if cli.String_ ctx "namespace" =? ""
  then ["get"; "pods"]
  else ["get"; "pods"; "-n"; cli.String_ ctx "namespace"].

Definition image_ref (h : handler) (sha : string) : string :=
  DockerImagePrefix h +++ ":" +++ sha.

Definition absent (c : github.RepositoryCommit) : Prop := github.SHA c = None.

(** A reply with more effects in front. *)
Definition after_effects {A} (t : list effect) (r : reply A) : reply A :=
  {| effects := t ++ effects r; after := after r; result := result r |}.

(** [deployCmd] from the set-image call on (lines 175-188). *)
Definition apply_update (h : handler) (p : printer) (image : string)
  : M (option error) :=
  ' (b, err) <- exec "kubectl" (set_image_args h image) ;;
  match err with
  | Some _ => p ("ERROR: " +++ b) ;; ret None
  | None =>
  p b ;;
  ' (b, err) <- exec "kubectl" (rollout_status_args h) ;;
  match err with
  | Some _ => p ("ERROR: " +++ b) ;; ret None
  | None =>
  p b ;;
  p "finished deployment" ;;
  ret None
  end end.

(** What a run of deploy needs to reach its end: the commits are
    fetched, a short revision is resolved, and both [kubectl] calls
    return without error. *)
Definition both_calls_succeed (h : handler) (w : World) : Prop :=
  exists (lst : list github.RepositoryCommit) (sha b1 b2 : string)
         (w1 w2 w3 : World),
    Repositories_ListCommits (fst (githubClientFromENV h))
      (GithubOrg h) (GithubRepo h) w = ((lst, None), w1) /\
    resolve_sha lst = Done sha /\
    sha <> "" /\
    CombinedOutput "kubectl" (set_image_args h (image_ref h sha)) w1 =
      ((b1, None), w2) /\
    CombinedOutput "kubectl" (rollout_status_args h) w2 = ((b2, None), w3).

Definition addressed_to (ch : string) (e : effect) : Prop :=
  match e with
  | SendMessage _ channel => channel = ch
  | _ => True
  end.

(** Every chat message of the computation goes to [ch]. *)
Definition sends_to {A} (ch : string) (m : M A) : Prop :=
  forall w, Forall (addressed_to ch) (effects (m w)).

Definition event_log (c : slack.RTMEvent) : effect :=
  Log "%s %T" [slack.Type_ c; slack.type_name (slack.Data c)].

(** The flush of the buffer after dispatch (lines 132-134). *)
Definition flush (ch buf : string) : M unit :=
  if (0 <? len buf)%nat
  then chat_printer ch ("```" +++ buf +++ "```")
  else ret tt.



Definition is_hello (c : slack.RTMEvent) : bool :=
  match slack.Data c with
  | slack.HelloEvent => true
  | _ => false
  end.

(** An event that reaches no command: a connection greeting, an event
    of another kind, or a message stopped by one of the two filters. *)
Definition no_command (UserID : string) (c : slack.RTMEvent) : bool :=
  match slack.Data c with
  | slack.HelloEvent => true
  | slack.Message cc =>
      (slack.User cc =? UserID)%string || negb (HasPrefix (slack.Text cc) "!")
  | slack.OtherEvent _ => true
  end.

(** What the loop does on an event that reaches no command. *)
Definition quiet_effects (channelID : string) (c : slack.RTMEvent)
  : list effect :=
  event_log c ::
  (if is_hello c then [SendMessage "Hi there" channelID] else []).

(** The channels of the text messages of a feed. *)
Fixpoint heard_channels (feed : list slack.RTMEvent) : list string :=
  match feed with
  | [] => []
  | c :: rest =>
      match slack.Data c with
      | slack.Message cc => slack.Channel_ cc :: heard_channels rest
      | _ => heard_channels rest
      end
  end.

(** The chat message, if the effect is one, goes to one of [chs]. *)
Definition addressed_within (chs : list string) (e : effect) : Prop :=
  match e with
  | SendMessage _ channel => In channel chs
  | _ => True
  end.

(** *** Slicing and revision resolution *)

Ltac run_monad :=
  cbv beta iota zeta delta
    [bind emit ret lift exec list_commits chat_printer after_effects
     effects after result].

Lemma substring_0_length (n : nat) : forall s : string,
  n <= String.length s -> String.length (substring 0 n s) = n.
Proof.
  induction n as [|n IH]; intros [|c s] Hn; simpl in *;
    try reflexivity; try lia.
  rewrite IH; lia.
Qed.

Lemma slice_12_in_bounds (s : string) :
  12 <= len s -> slice s 0 12 = Done (substring 0 12 s).
Proof.
  intros Hs. unfold slice.
  replace (12 <=? len s)%nat with true by (symmetry; apply Nat.leb_le; exact Hs).
  reflexivity.
Qed.

Lemma slice_12_out_of_bounds (s : string) :
  len s < 12 -> slice s 0 12 = Panicked (SliceBoundsOutOfRange 12 (len s)).
Proof.
  intros Hs. unfold slice.
  replace (12 <=? len s)%nat with false by (symmetry; apply Nat.leb_gt; exact Hs).
  reflexivity.
Qed.

Lemma short_revision_not_empty (s : string) :
  12 <= len s -> substring 0 12 s <> "".
Proof.
  intros Hs Heq. apply substring_0_length in Hs.
  rewrite Heq in Hs. discriminate Hs.
Qed.

Lemma resolve_sha_skips_absent (skipped rest : list github.RepositoryCommit) :
  Forall absent skipped -> resolve_sha (skipped ++ rest) = resolve_sha rest.
Proof.
  induction 1 as [|c skipped Hc _ IH]; simpl.
  - reflexivity.
  - rewrite Hc. exact IH.
Qed.

Lemma resolve_sha_none_present (lst : list github.RepositoryCommit) :
  Forall absent lst -> resolve_sha lst = Done "".
Proof.
  intros H. rewrite <- (app_nil_r lst).
  rewrite resolve_sha_skips_absent by exact H. reflexivity.
Qed.

(** *** [deployCmd], stage by stage *)

Lemma deployCmd_fetched (h : handler) (ch : string) (ctx : cli.Context)
    (w w1 : World) (lst : list github.RepositoryCommit) :
  Repositories_ListCommits (fst (githubClientFromENV h))
    (GithubOrg h) (GithubRepo h) w = ((lst, None), w1) ->
  deployCmd h (chat_printer ch) ctx w =
  after_effects
    [SendMessage "about to deploy" ch; ListCommits (GithubOrg h) (GithubRepo h)]
    ((sha <- lift (resolve_sha lst) ;;
      if sha =? "" then ret (Some (Errorf "no sha found")) else
      chat_printer ch (Itoa (length lst) +++ " commits") ;;
      chat_printer ch ("deploying image " +++ image_ref h sha) ;;
      apply_update h (chat_printer ch) (image_ref h sha)) w1).
Proof.
  intros Hfetch. unfold deployCmd, apply_update, image_ref,
    set_image_args, rollout_status_args.
  simpl in Hfetch. cbn [githubClientFromENV]. run_monad.
  rewrite Hfetch. cbv beta iota zeta.
  destruct (resolve_sha lst) as [sha|p]; [|reflexivity].
  destruct (sha =? "")%string; [reflexivity|].
  repeat match goal with
  | |- context [CombinedOutput ?n ?a ?x] =>
      destruct (CombinedOutput n a x) as [[? [?|]] ?]; cbv beta iota zeta
  end; reflexivity.
Qed.

Lemma deployCmd_fetch_failed (h : handler) (ch : string) (ctx : cli.Context)
    (w w1 : World) (lst : list github.RepositoryCommit) (e : error) :
  Repositories_ListCommits (fst (githubClientFromENV h))
    (GithubOrg h) (GithubRepo h) w = ((lst, Some e), w1) ->
  deployCmd h (chat_printer ch) ctx w =
  {| effects := [SendMessage "about to deploy" ch;
                 ListCommits (GithubOrg h) (GithubRepo h)];
     after := w1;
     result := Done (Some (WithStack e)) |}.
Proof.
  intros Hfetch. unfold deployCmd. simpl in Hfetch.
  cbn [githubClientFromENV]. run_monad.
  rewrite Hfetch. reflexivity.
Qed.

Lemma deployCmd_resolved (h : handler) (ch : string) (ctx : cli.Context)
    (w w1 : World) (lst : list github.RepositoryCommit) (sha : string) :
  Repositories_ListCommits (fst (githubClientFromENV h))
    (GithubOrg h) (GithubRepo h) w = ((lst, None), w1) ->
  resolve_sha lst = Done sha ->
  sha <> "" ->
  deployCmd h (chat_printer ch) ctx w =
  after_effects
    [SendMessage "about to deploy" ch;
     ListCommits (GithubOrg h) (GithubRepo h);
     SendMessage (Itoa (length lst) +++ " commits") ch;
     SendMessage ("deploying image " +++ image_ref h sha) ch]
    (apply_update h (chat_printer ch) (image_ref h sha) w1).
Proof.
  intros Hfetch Hsha Hne.
  rewrite (deployCmd_fetched h ch ctx w w1 lst Hfetch).
  apply String.eqb_neq in Hne.
  run_monad. rewrite Hsha. cbv beta iota zeta. rewrite Hne.
  destruct (apply_update h (fun s => fun w0 =>
    {| effects := [SendMessage s ch]; after := w0; result := Done tt |})
    (image_ref h sha) w1) as [t w' [r|p]]; reflexivity.
Qed.

Lemma apply_update_set_image_failed (h : handler) (ch image : string)
    (w1 w2 : World) (b : string) (e : error) :
  CombinedOutput "kubectl" (set_image_args h image) w1 = ((b, Some e), w2) ->
  apply_update h (chat_printer ch) image w1 =
  {| effects := [Exec "kubectl" (set_image_args h image);
                 SendMessage ("ERROR: " +++ b) ch];
     after := w2;
     result := Done None |}.
Proof.
  intros Hset. unfold apply_update. run_monad.
  rewrite Hset. reflexivity.
Qed.

Lemma apply_update_rollout_failed (h : handler) (ch image : string)
    (w1 w2 w3 : World) (b1 b2 : string) (e : error) :
  CombinedOutput "kubectl" (set_image_args h image) w1 = ((b1, None), w2) ->
  CombinedOutput "kubectl" (rollout_status_args h) w2 = ((b2, Some e), w3) ->
  apply_update h (chat_printer ch) image w1 =
  {| effects := [Exec "kubectl" (set_image_args h image);
                 SendMessage b1 ch;
                 Exec "kubectl" (rollout_status_args h);
                 SendMessage ("ERROR: " +++ b2) ch];
     after := w3;
     result := Done None |}.
Proof.
  intros Hset Hroll. unfold apply_update. run_monad.
  rewrite Hset. cbv beta iota zeta. rewrite Hroll. reflexivity.
Qed.

Lemma apply_update_succeeded (h : handler) (ch image : string)
    (w1 w2 w3 : World) (b1 b2 : string) :
  CombinedOutput "kubectl" (set_image_args h image) w1 = ((b1, None), w2) ->
  CombinedOutput "kubectl" (rollout_status_args h) w2 = ((b2, None), w3) ->
  apply_update h (chat_printer ch) image w1 =
  {| effects := [Exec "kubectl" (set_image_args h image);
                 SendMessage b1 ch;
                 Exec "kubectl" (rollout_status_args h);
                 SendMessage b2 ch;
                 SendMessage "finished deployment" ch];
     after := w3;
     result := Done None |}.
Proof.
  intros Hset Hroll. unfold apply_update. run_monad.
  rewrite Hset. cbv beta iota zeta. rewrite Hroll. reflexivity.
Qed.

Lemma deployCmd_no_sha (h : handler) (ch : string) (ctx : cli.Context)
    (w w1 : World) (lst : list github.RepositoryCommit) :
  Repositories_ListCommits (fst (githubClientFromENV h))
    (GithubOrg h) (GithubRepo h) w = ((lst, None), w1) ->
  resolve_sha lst = Done "" ->
  deployCmd h (chat_printer ch) ctx w =
  {| effects := [SendMessage "about to deploy" ch;
                 ListCommits (GithubOrg h) (GithubRepo h)];
     after := w1;
     result := Done (Some "no sha found") |}.
Proof.
  intros Hfetch Hsha.
  rewrite (deployCmd_fetched h ch ctx w w1 lst Hfetch).
  run_monad. rewrite Hsha. reflexivity.
Qed.

Lemma deployCmd_panicked (h : handler) (ch : string) (ctx : cli.Context)
    (w w1 : World) (lst : list github.RepositoryCommit) (p : panic) :
  Repositories_ListCommits (fst (githubClientFromENV h))
    (GithubOrg h) (GithubRepo h) w = ((lst, None), w1) ->
  resolve_sha lst = Panicked p ->
  deployCmd h (chat_printer ch) ctx w =
  {| effects := [SendMessage "about to deploy" ch;
                 ListCommits (GithubOrg h) (GithubRepo h)];
     after := w1;
     result := Panicked p |}.
Proof.
  intros Hfetch Hsha.
  rewrite (deployCmd_fetched h ch ctx w w1 lst Hfetch).
  run_monad. rewrite Hsha. reflexivity.
Qed.

(** *** Revision resolution *)

(** C1 (as amended): deploy selects the first commit whose identifier
    is present (not nil), skipping the commits whose identifier is
    absent; when that identifier has at least 12 bytes, the short
    revision is its first 12 bytes, and it is the revision of the image
    deploy announces. *)
Theorem short_revision_of_first_present_sha
    (h : handler) (ch : string) (ctx : cli.Context) (w w1 : World)
    (skipped rest : list github.RepositoryCommit)
    (c : github.RepositoryCommit) (s : string) :
  Forall absent skipped ->
  github.SHA c = Some s ->
  12 <= len s ->
  Repositories_ListCommits (fst (githubClientFromENV h))
    (GithubOrg h) (GithubRepo h) w = ((skipped ++ c :: rest, None), w1) ->
  resolve_sha (skipped ++ c :: rest) = Done (substring 0 12 s) /\
  deployCmd h (chat_printer ch) ctx w =
  after_effects
    [SendMessage "about to deploy" ch;
     ListCommits (GithubOrg h) (GithubRepo h);
     SendMessage (Itoa (length (skipped ++ c :: rest)) +++ " commits") ch;
     SendMessage ("deploying image " +++ image_ref h (substring 0 12 s)) ch]
    (apply_update h (chat_printer ch) (image_ref h (substring 0 12 s)) w1).
Proof.
  intros Hskip Hc Hlen Hfetch.
  assert (Hres : resolve_sha (skipped ++ c :: rest) = Done (substring 0 12 s)).
  { rewrite resolve_sha_skips_absent by exact Hskip.
    simpl. rewrite Hc. apply slice_12_in_bounds, Hlen. }
  split; [exact Hres|].
  apply deployCmd_resolved; [exact Hfetch | exact Hres |].
  apply short_revision_not_empty, Hlen.
Qed.

(** C9: revision resolution slices the first identifier that is present
    without looking at its length: when that identifier has fewer than
    12 bytes (the empty string included) the slice is out of bounds, and
    deploy reaches it, panicking right after the commits are fetched. *)
Theorem short_sha_slice_out_of_bounds
    (h : handler) (ch : string) (ctx : cli.Context) (w w1 : World)
    (skipped rest : list github.RepositoryCommit)
    (c : github.RepositoryCommit) (s : string) :
  Forall absent skipped ->
  github.SHA c = Some s ->
  len s < 12 ->
  Repositories_ListCommits (fst (githubClientFromENV h))
    (GithubOrg h) (GithubRepo h) w = ((skipped ++ c :: rest, None), w1) ->
  slice s 0 12 = Panicked (SliceBoundsOutOfRange 12 (len s)) /\
  resolve_sha (skipped ++ c :: rest) =
    Panicked (SliceBoundsOutOfRange 12 (len s)) /\
  deployCmd h (chat_printer ch) ctx w =
  {| effects := [SendMessage "about to deploy" ch;
                 ListCommits (GithubOrg h) (GithubRepo h)];
     after := w1;
     result := Panicked (SliceBoundsOutOfRange 12 (len s)) |}.
Proof.
  intros Hskip Hc Hlen Hfetch.
  assert (Hres : resolve_sha (skipped ++ c :: rest) =
                 Panicked (SliceBoundsOutOfRange 12 (len s))).
  { rewrite resolve_sha_skips_absent by exact Hskip.
    simpl. rewrite Hc. apply slice_12_out_of_bounds, Hlen. }
  split; [apply slice_12_out_of_bounds, Hlen|].
  split; [exact Hres|].
  apply deployCmd_panicked with (lst := skipped ++ c :: rest); assumption.
Qed.

(** C4 (as amended): when no commit of the fetched list has an
    identifier that is present (the empty list included), deploy returns
    the error "no sha found", has sent nothing but "about to deploy",
    and has made no orchestrator call. *)
Theorem no_present_sha_is_terminal
    (h : handler) (ch : string) (ctx : cli.Context) (w w1 : World)
    (lst : list github.RepositoryCommit) :
  Forall absent lst ->
  Repositories_ListCommits (fst (githubClientFromENV h))
    (GithubOrg h) (GithubRepo h) w = ((lst, None), w1) ->
  let r := deployCmd h (chat_printer ch) ctx w in
  r = {| effects := [SendMessage "about to deploy" ch;
                     ListCommits (GithubOrg h) (GithubRepo h)];
         after := w1;
         result := Done (Some "no sha found") |} /\
  sent (effects r) = [("about to deploy", ch)] /\
  execs (effects r) = [].
Proof.
  intros Habsent Hfetch r.
  assert (Hr : r = {| effects := [SendMessage "about to deploy" ch;
                                  ListCommits (GithubOrg h) (GithubRepo h)];
                      after := w1;
                      result := Done (Some "no sha found") |}).
  { unfold r. apply deployCmd_no_sha with (lst := lst); [exact Hfetch|].
    apply resolve_sha_none_present, Habsent. }
  rewrite Hr. repeat split.
Qed.

(** *** The deployment sequence *)

(** C2: when the set-image operation reports failure, deploy sends
    exactly "ERROR: " followed by the operation's output, does not run
    rollout status, sends nothing after it, and returns nil. *)
Theorem set_image_failure_short_circuits
    (h : handler) (ch : string) (ctx : cli.Context) (w w1 w2 : World)
    (lst : list github.RepositoryCommit) (sha b : string) (e : error) :
  Repositories_ListCommits (fst (githubClientFromENV h))
    (GithubOrg h) (GithubRepo h) w = ((lst, None), w1) ->
  resolve_sha lst = Done sha ->
  sha <> "" ->
  CombinedOutput "kubectl" (set_image_args h (image_ref h sha)) w1 =
    ((b, Some e), w2) ->
  let r := deployCmd h (chat_printer ch) ctx w in
  r = {| effects := [SendMessage "about to deploy" ch;
                     ListCommits (GithubOrg h) (GithubRepo h);
                     SendMessage (Itoa (length lst) +++ " commits") ch;
                     SendMessage ("deploying image " +++ image_ref h sha) ch;
                     Exec "kubectl" (set_image_args h (image_ref h sha));
                     SendMessage ("ERROR: " +++ b) ch];
         after := w2;
         result := Done None |} /\
  execs (effects r) = [("kubectl", set_image_args h (image_ref h sha))] /\
  last (sent (effects r)) ("", "") = ("ERROR: " +++ b, ch).
Proof.
  intros Hfetch Hsha Hne Hset r.
  assert (Hr : r = {| effects := [SendMessage "about to deploy" ch;
                     ListCommits (GithubOrg h) (GithubRepo h);
                     SendMessage (Itoa (length lst) +++ " commits") ch;
                     SendMessage ("deploying image " +++ image_ref h sha) ch;
                     Exec "kubectl" (set_image_args h (image_ref h sha));
                     SendMessage ("ERROR: " +++ b) ch];
         after := w2;
         result := Done None |}).
  { unfold r. rewrite (deployCmd_resolved h ch ctx w w1 lst sha Hfetch Hsha Hne).
    rewrite (apply_update_set_image_failed h ch _ w1 w2 b e Hset).
    reflexivity. }
  rewrite Hr. repeat split.
Qed.

Lemma deployCmd_succeeded
    (h : handler) (ch : string) (ctx : cli.Context) (w w1 w2 w3 : World)
    (lst : list github.RepositoryCommit) (sha b1 b2 : string) :
  Repositories_ListCommits (fst (githubClientFromENV h))
    (GithubOrg h) (GithubRepo h) w = ((lst, None), w1) ->
  resolve_sha lst = Done sha ->
  sha <> "" ->
  CombinedOutput "kubectl" (set_image_args h (image_ref h sha)) w1 =
    ((b1, None), w2) ->
  CombinedOutput "kubectl" (rollout_status_args h) w2 = ((b2, None), w3) ->
  deployCmd h (chat_printer ch) ctx w =
  {| effects := [SendMessage "about to deploy" ch;
                 ListCommits (GithubOrg h) (GithubRepo h);
                 SendMessage (Itoa (length lst) +++ " commits") ch;
                 SendMessage ("deploying image " +++ image_ref h sha) ch;
                 Exec "kubectl" (set_image_args h (image_ref h sha));
                 SendMessage b1 ch;
                 Exec "kubectl" (rollout_status_args h);
                 SendMessage b2 ch;
                 SendMessage "finished deployment" ch];
     after := w3;
     result := Done None |}.
Proof.
  intros Hfetch Hsha Hne Hset Hroll.
  rewrite (deployCmd_resolved h ch ctx w w1 lst sha Hfetch Hsha Hne).
  rewrite (apply_update_succeeded h ch _ w1 w2 w3 b1 b2 Hset Hroll).
  reflexivity.
Qed.

Lemma finished_last_only_after_success
    (h : handler) (ch : string) (ctx : cli.Context) (w : World) :
  last (sent (effects (deployCmd h (chat_printer ch) ctx w))) ("", "") =
    ("finished deployment", ch) ->
  both_calls_succeed h w.
Proof.
  intros Hlast.
  destruct (Repositories_ListCommits (fst (githubClientFromENV h))
              (GithubOrg h) (GithubRepo h) w) as [[lst [e|]] w1] eqn:Hfetch.
  { rewrite (deployCmd_fetch_failed h ch ctx w w1 lst e Hfetch) in Hlast.
    simpl in Hlast. discriminate Hlast. }
  destruct (resolve_sha lst) as [sha|p] eqn:Hsha.
  2:{ rewrite (deployCmd_panicked h ch ctx w w1 lst p Hfetch Hsha) in Hlast.
      simpl in Hlast. discriminate Hlast. }
  destruct (String.eqb_spec sha "") as [Hempty|Hne].
  { subst sha.
    rewrite (deployCmd_no_sha h ch ctx w w1 lst Hfetch Hsha) in Hlast.
    simpl in Hlast. discriminate Hlast. }
  rewrite (deployCmd_resolved h ch ctx w w1 lst sha Hfetch Hsha Hne) in Hlast.
  destruct (CombinedOutput "kubectl" (set_image_args h (image_ref h sha)) w1)
    as [[b1 [e1|]] w2] eqn:Hset.
  { rewrite (apply_update_set_image_failed h ch _ w1 w2 b1 e1 Hset) in Hlast.
    simpl in Hlast. discriminate Hlast. }
  destruct (CombinedOutput "kubectl" (rollout_status_args h) w2)
    as [[b2 [e2|]] w3] eqn:Hroll.
  { rewrite (apply_update_rollout_failed h ch _ w1 w2 w3 b1 b2 e2 Hset Hroll)
      in Hlast.
    simpl in Hlast. discriminate Hlast. }
  exists lst, sha, b1, b2, w1, w2, w3. repeat split; assumption.
Qed.

(** C3: when a short revision is resolved and both orchestrator calls
    succeed, deploy sends, in this order, "about to deploy", the commit
    count, "deploying image " with the prefix, a colon and the short
    revision, the set-image output, the rollout-status output and
    "finished deployment"; prefix "myimage" and revision "1234567890ab"
    give the image "myimage:1234567890ab"; and the last message of a run
    is "finished deployment" only when both calls succeeded. *)
Theorem deploy_success_path
    (h : handler) (ch : string) (ctx : cli.Context)
    (w w1 w2 w3 : World) (lst : list github.RepositoryCommit)
    (sha b1 b2 : string) :
  Repositories_ListCommits (fst (githubClientFromENV h))
    (GithubOrg h) (GithubRepo h) w = ((lst, None), w1) ->
  resolve_sha lst = Done sha ->
  sha <> "" ->
  CombinedOutput "kubectl" (set_image_args h (image_ref h sha)) w1 =
    ((b1, None), w2) ->
  CombinedOutput "kubectl" (rollout_status_args h) w2 = ((b2, None), w3) ->
  let r := deployCmd h (chat_printer ch) ctx w in
  (effects r =
     [SendMessage "about to deploy" ch;
      ListCommits (GithubOrg h) (GithubRepo h);
      SendMessage (Itoa (length lst) +++ " commits") ch;
      SendMessage ("deploying image " +++ DockerImagePrefix h +++ ":" +++ sha) ch;
      Exec "kubectl" (set_image_args h (image_ref h sha));
      SendMessage b1 ch;
      Exec "kubectl" (rollout_status_args h);
      SendMessage b2 ch;
      SendMessage "finished deployment" ch] /\
   sent (effects r) =
     [("about to deploy", ch);
      (Itoa (length lst) +++ " commits", ch);
      ("deploying image " +++ DockerImagePrefix h +++ ":" +++ sha, ch);
      (b1, ch); (b2, ch); ("finished deployment", ch)] /\
   after r = w3 /\
   result r = Done None) /\
  (DockerImagePrefix h = "myimage" -> sha = "1234567890ab" ->
     image_ref h sha = "myimage:1234567890ab") /\
  (forall (ch' : string) (ctx' : cli.Context) (w' : World),
     last (sent (effects (deployCmd h (chat_printer ch') ctx' w'))) ("", "") =
       ("finished deployment", ch') ->
     both_calls_succeed h w').
Proof.
  intros Hfetch Hsha Hne Hset Hroll r. split; [|split].
  - unfold r.
    rewrite (deployCmd_succeeded h ch ctx w w1 w2 w3 lst sha b1 b2
               Hfetch Hsha Hne Hset Hroll).
    repeat split.
  - intros Hprefix Hrev. unfold image_ref. rewrite Hprefix, Hrev. reflexivity.
  - intros ch' ctx' w'. apply finished_last_only_after_success.
Qed.

(** *** The pods handler *)

(** C8: the pods handler first sends "about to list pods"; when the
    list operation fails, its output goes to the local log and nothing
    more is sent to chat; when it succeeds, the output is sent as a
    fenced block; either way the handler returns nil. *)
Theorem pods_failure_is_logged_only
    (ch : string) (ctx : cli.Context) (w w1 : World)
    (b : string) (err : option error) :
  CombinedOutput "kubectl" (get_pods_args ctx) w = ((b, err), w1) ->
  let r := podsCmd (chat_printer ch) ctx w in
  r = {| effects :=
           SendMessage "about to list pods" ch ::
           Exec "kubectl" (get_pods_args ctx) ::
           match err with
           | Some _ => [Log "err=%q" [b]]
           | None => [SendMessage ("```" +++ b +++ "```") ch]
           end;
         after := w1;
         result := Done None |} /\
  (err <> None -> sent (effects r) = [("about to list pods", ch)]) /\
  (err = None ->
     sent (effects r) =
       [("about to list pods", ch); ("```" +++ b +++ "```", ch)]).
Proof.
  intros Hget r.
  assert (Hr : r = {| effects :=
           SendMessage "about to list pods" ch ::
           Exec "kubectl" (get_pods_args ctx) ::
           match err with
           | Some _ => [Log "err=%q" [b]]
           | None => [SendMessage ("```" +++ b +++ "```") ch]
           end;
         after := w1;
         result := Done None |}).
  { unfold r, podsCmd. unfold get_pods_args in *. run_monad.
    destruct (cli.String_ ctx "namespace" =? "")%string;
      cbn [List.app] in *; rewrite Hget; destruct err; reflexivity. }
  rewrite Hr. split; [reflexivity|].
  split; intros Herr; destruct err; try congruence; reflexivity.
Qed.

(** *** Where chat messages go *)

Lemma sends_to_ret {A} (ch : string) (a : A) : sends_to ch (ret a).
Proof. intros w. constructor. Qed.

Lemma sends_to_lift {A} (ch : string) (o : outcome A) : sends_to ch (lift o).
Proof. intros w. constructor. Qed.

Lemma sends_to_printer (ch s : string) : sends_to ch (chat_printer ch s).
Proof. intros w. repeat constructor. Qed.

Lemma sends_to_log (ch format : string) (args : list string) :
  sends_to ch (emit (Log format args)).
Proof. intros w. repeat constructor. Qed.

Lemma sends_to_exec (ch name : string) (arg : list string) :
  sends_to ch (exec name arg).
Proof.
  intros w. unfold exec.
  destruct (CombinedOutput name arg w) as [r w']. repeat constructor.
Qed.

Lemma sends_to_list_commits (ch : string) (cl : github.Client)
    (owner repo : string) :
  sends_to ch (list_commits cl owner repo).
Proof.
  intros w. unfold list_commits.
  destruct (Repositories_ListCommits cl owner repo w) as [r w'].
  repeat constructor.
Qed.

Lemma sends_to_bind {A B} (ch : string) (m : M A) (k : A -> M B) :
  sends_to ch m -> (forall a, sends_to ch (k a)) -> sends_to ch (bind m k).
Proof.
  intros Hm Hk w. unfold bind. specialize (Hm w).
  destruct (m w) as [t w' [a|p]]; simpl in *.
  - apply Forall_app. split; [exact Hm | apply Hk].
  - exact Hm.
Qed.

Ltac sends_to_steps :=
  repeat first
    [ apply sends_to_ret
    | apply sends_to_lift
    | apply sends_to_printer
    | apply sends_to_log
    | apply sends_to_exec
    | apply sends_to_list_commits
    | apply sends_to_bind; [| intros ?]
    | match goal with
      | |- sends_to _ (match ?x with _ => _ end) => destruct x
      end ].

Lemma sends_to_podsCmd (ch : string) (ctx : cli.Context) :
  sends_to ch (podsCmd (chat_printer ch) ctx).
Proof. unfold podsCmd. sends_to_steps. Qed.

Lemma sends_to_deployCmd (h : handler) (ch : string) (ctx : cli.Context) :
  sends_to ch (deployCmd h (chat_printer ch) ctx).
Proof. unfold deployCmd. cbn [githubClientFromENV]. sends_to_steps. Qed.

Lemma sends_to_App_Run (h : handler) (ch : string) (arguments : list string) :
  sends_to ch (App_Run (app h (chat_printer ch)) arguments).
Proof.
  unfold App_Run.
  destruct (tl arguments) as [|name args]; [apply sends_to_ret|].
  cbn [app Commands App_Command cli.Name].
  destruct ("pods" =? name)%string.
  { cbn [cli.Flags cli.Action ExitErrHandler adapt].
    sends_to_steps; apply sends_to_podsCmd. }
  destruct ("deploy" =? name)%string.
  { cbn [cli.Flags cli.Action ExitErrHandler adapt].
    sends_to_steps; apply sends_to_deployCmd. }
  apply sends_to_ret.
Qed.

(** *** The event loop *)

Lemma on_event_hello (h : handler) (UserID channelID : string)
    (c : slack.RTMEvent) (w : World) :
  slack.Data c = slack.HelloEvent ->
  on_event h UserID channelID c w =
  {| effects := [event_log c; SendMessage "Hi there" channelID];
     after := w;
     result := Done tt |}.
Proof.
  intros Hdata. unfold on_event, event_log. rewrite Hdata. reflexivity.
Qed.

Lemma on_event_filtered (h : handler) (UserID channelID : string)
    (c : slack.RTMEvent) (cc : slack.MessageEvent) (w : World) :
  slack.Data c = slack.Message cc ->
  slack.User cc = UserID \/ HasPrefix (slack.Text cc) "!" = false ->
  on_event h UserID channelID c w =
  {| effects := [event_log c]; after := w; result := Done tt |}.
Proof.
  intros Hdata Hfilter. unfold on_event, event_log. rewrite Hdata.
  run_monad.
  destruct (String.eqb_spec (slack.User cc) UserID) as [Hself|Hother];
    [reflexivity|].
  destruct Hfilter as [Hself|Hmarker]; [contradiction|].
  rewrite Hmarker. reflexivity.
Qed.

Lemma on_event_dispatched (h : handler) (UserID channelID : string)
    (c : slack.RTMEvent) (cc : slack.MessageEvent) (tokens : list string)
    (w : World) :
  slack.Data c = slack.Message cc ->
  slack.User cc <> UserID ->
  HasPrefix (slack.Text cc) "!" = true ->
  shellwords_Parse (TrimPrefix (slack.Text cc) "!") = (tokens, None) ->
  on_event h UserID channelID c w =
  after_effects [event_log c]
    ((buf <- App_Run (app h (chat_printer (slack.Channel_ cc)))
               ("foo" :: tokens) ;;
      flush (slack.Channel_ cc) buf) w).
Proof.
  intros Hdata Hother Hmarker Hparse. unfold on_event, event_log, flush.
  rewrite Hdata. apply String.eqb_neq in Hother.
  rewrite Hother, Hmarker, Hparse. cbn [negb].
  unfold bind at 1. unfold emit at 1. cbn [result effects after].
  unfold after_effects. reflexivity.
Qed.

Lemma on_event_parse_failed (h : handler) (UserID channelID : string)
    (c : slack.RTMEvent) (cc : slack.MessageEvent) (tokens : list string)
    (e : error) (w : World) :
  slack.Data c = slack.Message cc ->
  slack.User cc <> UserID ->
  HasPrefix (slack.Text cc) "!" = true ->
  shellwords_Parse (TrimPrefix (slack.Text cc) "!") = (tokens, Some e) ->
  on_event h UserID channelID c w =
  {| effects := [event_log c; SendMessage ("error: " +++ e) (slack.Channel_ cc)];
     after := w;
     result := Done tt |}.
Proof.
  intros Hdata Hother Hmarker Hparse. unfold on_event, event_log.
  rewrite Hdata. apply String.eqb_neq in Hother.
  rewrite Hother, Hmarker, Hparse. reflexivity.
Qed.

Lemma range_events_cons (h : handler) (UserID channelID : string)
    (c : slack.RTMEvent) (rest : list slack.RTMEvent) (w : World) :
  range_events h UserID channelID (c :: rest) w =
  bind (on_event h UserID channelID c)
       (fun _ => range_events h UserID channelID rest) w.
Proof. reflexivity. Qed.

Lemma App_Run_unknown (a : App) (tokens : list string) :
  (forall name, hd_error tokens = Some name ->
                App_Command (Commands a) name = None) ->
  App_Run a ("foo" :: tokens) = ret (cli_usage tokens).
Proof.
  intros Hunknown. unfold App_Run. cbn [tl].
  destruct tokens as [|name args]; [reflexivity|].
  rewrite (Hunknown name eq_refl). reflexivity.
Qed.

Lemma app_unknown_command (h : handler) (p : printer) (name : string) :
  name <> "pods" -> name <> "deploy" ->
  App_Command (Commands (app h p)) name = None.
Proof.
  intros Hpods Hdeploy. cbn [app Commands App_Command cli.Name].
  destruct (String.eqb_spec "pods" name) as [Heq|_]; [congruence|].
  destruct (String.eqb_spec "deploy" name) as [Heq|_]; [congruence|].
  reflexivity.
Qed.

Lemma sends_to_on_message (h : handler) (UserID channelID : string)
    (c : slack.RTMEvent) (cc : slack.MessageEvent) :
  slack.Data c = slack.Message cc ->
  sends_to (slack.Channel_ cc) (on_event h UserID channelID c).
Proof.
  intros Hdata. unfold on_event. rewrite Hdata. cbv zeta.
  sends_to_steps. apply sends_to_App_Run.
Qed.

(** C6: a text message written by the bot itself, or whose text does
    not start with "!", leaves nothing but the line in the local log:
    no chat message, no handler, and the loop goes on with the next
    event. *)
Theorem filtered_messages_are_discarded
    (h : handler) (UserID channelID : string) (c : slack.RTMEvent)
    (cc : slack.MessageEvent) (rest : list slack.RTMEvent) (w : World) :
  slack.Data c = slack.Message cc ->
  slack.User cc = UserID \/ HasPrefix (slack.Text cc) "!" = false ->
  on_event h UserID channelID c w =
    {| effects := [Log "%s %T" [slack.Type_ c; "*slack.MessageEvent"]];
       after := w;
       result := Done tt |} /\
  sent (effects (on_event h UserID channelID c w)) = [] /\
  execs (effects (on_event h UserID channelID c w)) = [] /\
  range_events h UserID channelID (c :: rest) w =
    after_effects [Log "%s %T" [slack.Type_ c; "*slack.MessageEvent"]]
      (range_events h UserID channelID rest w).
Proof.
  intros Hdata Hfilter.
  pose proof (on_event_filtered h UserID channelID c cc w Hdata Hfilter) as Hev.
  unfold event_log in Hev. rewrite Hdata in Hev. cbn [slack.type_name] in Hev.
  rewrite range_events_cons. unfold bind. rewrite Hev.
  repeat split.
Qed.

(** C7: a command message whose first token is neither "pods" nor
    "deploy" invokes no handler and ends normally; the framework's text
    is what the buffer holds, and after dispatch the buffer is sent to
    the message's channel as one fenced message exactly when it is not
    empty. *)
Theorem unknown_command_flushes_buffer
    (h : handler) (UserID channelID : string) (c : slack.RTMEvent)
    (cc : slack.MessageEvent) (tokens : list string) (w : World) :
  slack.Data c = slack.Message cc ->
  slack.User cc <> UserID ->
  HasPrefix (slack.Text cc) "!" = true ->
  shellwords_Parse (TrimPrefix (slack.Text cc) "!") = (tokens, None) ->
  hd_error tokens <> Some "pods" ->
  hd_error tokens <> Some "deploy" ->
  let ch := slack.Channel_ cc in
  let buf := cli_usage tokens in
  let r := on_event h UserID channelID c w in
  (forall name, hd_error tokens = Some name ->
     App_Command (Commands (app h (chat_printer ch))) name = None) /\
  App_Run (app h (chat_printer ch)) ("foo" :: tokens) w =
    {| effects := []; after := w; result := Done buf |} /\
  after r = w /\
  result r = Done tt /\
  (buf <> "" ->
     effects r = [event_log c; SendMessage ("```" +++ buf +++ "```") ch]) /\
  (buf = "" -> effects r = [event_log c]).
Proof.
  intros Hdata Hother Hmarker Hparse Hpods Hdeploy ch buf r.
  assert (Hunknown : forall name, hd_error tokens = Some name ->
            App_Command (Commands (app h (chat_printer ch))) name = None).
  { intros name Hname. apply app_unknown_command; congruence. }
  assert (Hrun : App_Run (app h (chat_printer ch)) ("foo" :: tokens) =
                 ret (cli_usage tokens))
    by (apply App_Run_unknown, Hunknown).
  split; [exact Hunknown|].
  split; [rewrite Hrun; reflexivity|].
  unfold r.
  rewrite (on_event_dispatched h UserID channelID c cc tokens w
             Hdata Hother Hmarker Hparse).
  fold ch. rewrite Hrun. fold buf. unfold flush.
  destruct buf as [|a s]; run_monad; cbn.
  - repeat split; congruence.
  - repeat split; congruence.
Qed.


(** *** Startup *)

(** C5: when the number of listed channels that have the bot among
    their members is not 1, [run] returns an error before it reads any
    event or sends anything, and [main] ends fatally; when there is
    exactly one, the whole feed is handled with that channel as the
    active channel. *)
Theorem single_channel_guard
    (h : handler) (w : World) (rsp : slack.AuthTestResponse)
    (lst : list slack.Channel) :
  slack.AuthTest (slack_New (SlackToken h)) = (rsp, None) ->
  slack.GetChannels (slack_New (SlackToken h)) true = (lst, None) ->
  let UserID := slack.UserID rsp in
  (length (member_channels lst UserID) <> 1 ->
     run h w =
       {| effects := [Log UserID []];
          after := w;
          result := Done (Some "must only be in one channel") |} /\
     (h = fst newHandler ->
        main w =
          {| effects := [Log UserID []];
             after := w;
             result := Done (Fatal "must only be in one channel") |})) /\
  (forall channelID : string,
     member_channels lst UserID = [channelID] ->
     run h w =
       (emit (Log UserID []) ;;
        emit (Log "channel=%s" [channelID]) ;;
        range_events h UserID channelID
          (slack.IncomingEvents (slack_New (SlackToken h))) ;;
        ret None) w).
Proof.
  intros Hauth Hchannels UserID.
  assert (Hguard : length (member_channels lst UserID) <> 1 ->
     run h w =
       {| effects := [Log UserID []];
          after := w;
          result := Done (Some "must only be in one channel") |}).
  { intros Hcount. unfold run. cbv zeta. rewrite Hauth, Hchannels.
    fold UserID. apply Nat.eqb_neq in Hcount. rewrite Hcount.
    reflexivity. }
  split.
  - intros Hcount. split; [exact (Hguard Hcount)|].
    intros Hh. unfold main.
    change newHandler with (fst newHandler, @None error).
    rewrite <- Hh. unfold bind. rewrite (Hguard Hcount). reflexivity.
  - intros channelID Hone. unfold run. cbv zeta.
    rewrite Hauth, Hchannels. fold UserID. rewrite Hone. reflexivity.
Qed.

(** *** More on revision resolution *)

Lemma substring_0_prefix (n : nat) : forall s : string,
  String.prefix (substring 0 n s) s = true.
Proof.
  induction n as [|n IH]; intros [|c s]; simpl; try reflexivity.
  destruct (ascii_dec c c) as [_|Hc]; [apply IH | congruence].
Qed.

Lemma slice_12_done (s sha : string) :
  slice s 0 12 = Done sha ->
  12 <= len s /\ sha = substring 0 12 s.
Proof.
  intros H. destruct (Nat.le_gt_cases 12 (len s)) as [Hs|Hs].
  - rewrite (slice_12_in_bounds s Hs) in H. injection H as <-.
    split; [exact Hs | reflexivity].
  - rewrite (slice_12_out_of_bounds s Hs) in H. discriminate H.
Qed.



(** X1: a short revision that is resolved and not empty is the first 12
    bytes of the first identifier that is present: the list splits into
    commits without identifier, the commit that decides, and the rest;
    the revision has 12 bytes and is a prefix of that identifier. *)
Theorem resolved_revision_comes_from_first_present_sha
    (lst : list github.RepositoryCommit) (sha : string) :
  resolve_sha lst = Done sha ->
  sha <> "" ->
  exists (skipped rest : list github.RepositoryCommit)
         (c : github.RepositoryCommit) (s : string),
    lst = skipped ++ c :: rest /\
    Forall absent skipped /\
    github.SHA c = Some s /\
    12 <= len s /\
    sha = substring 0 12 s /\
    len sha = 12 /\
    HasPrefix s sha = true.
Proof.
  induction lst as [|c rest IH]; simpl; intros Hres Hne.
  - injection Hres as <-. congruence.
  - destruct (github.SHA c) as [s|] eqn:Hc.
    + apply slice_12_done in Hres. destruct Hres as [Hlen ->].
      exists [], rest, c, s. repeat split; try assumption.
      * constructor.
      * apply substring_0_length, Hlen.
      * apply substring_0_prefix.
    + destruct (IH Hres Hne)
        as (skipped & rest' & c' & s & -> & Hskip & Hc' & Hlen & -> & Hl & Hp).
      exists (c :: skipped), rest', c', s. repeat split; try assumption.
      constructor; assumption.
Qed.

(** X2: the commits after the first one with an identifier are never
    looked at: replacing them leaves the result of the resolution, be it
    a revision or the panic, unchanged. *)
Theorem resolve_sha_ignores_later_commits
    (before rest rest' : list github.RepositoryCommit)
    (c : github.RepositoryCommit) :
  github.SHA c <> None ->
  resolve_sha (before ++ c :: rest) = resolve_sha (before ++ c :: rest').
Proof.
  intros Hc. induction before as [|b before IH]; simpl.
  - destruct (github.SHA c); [reflexivity | congruence].
  - destruct (github.SHA b); [reflexivity | exact IH].
Qed.

Lemma resolve_sha_empty_iff (lst : list github.RepositoryCommit) :
  resolve_sha lst = Done "" <-> Forall absent lst.
Proof.
  split; [|apply resolve_sha_none_present].
  induction lst as [|c rest IH]; simpl; intros Hres; [constructor|].
  destruct (github.SHA c) as [s|] eqn:Hc.
  - apply slice_12_done in Hres. destruct Hres as [Hlen Hsub].
    symmetry in Hsub. apply short_revision_not_empty in Hlen. contradiction.
  - constructor; [exact Hc | apply IH, Hres].
Qed.

Lemma apply_update_returns_nil (h : handler) (ch image : string) (w : World) :
  result (apply_update h (chat_printer ch) image w) = Done None.
Proof.
  unfold apply_update. run_monad.
  destruct (CombinedOutput "kubectl" (set_image_args h image) w)
    as [[b1 [e1|]] w1]; cbv beta iota zeta; [reflexivity|].
  destruct (CombinedOutput "kubectl" (rollout_status_args h) w1)
    as [[b2 [e2|]] w2]; reflexivity.
Qed.

(** X3: once the commits are fetched, deploy returns the error "no sha
    found" exactly when no commit of the list has an identifier. *)
Theorem no_sha_found_iff_no_identifier
    (h : handler) (ch : string) (ctx : cli.Context) (w w1 : World)
    (lst : list github.RepositoryCommit) :
  Repositories_ListCommits (fst (githubClientFromENV h))
    (GithubOrg h) (GithubRepo h) w = ((lst, None), w1) ->
  result (deployCmd h (chat_printer ch) ctx w) = Done (Some "no sha found")
  <-> Forall absent lst.
Proof.
  intros Hfetch. split.
  - intros Hres. apply resolve_sha_empty_iff.
    destruct (resolve_sha lst) as [sha|p] eqn:Hsha.
    + destruct (String.eqb_spec sha "") as [->|Hne]; [reflexivity|].
      rewrite (deployCmd_resolved h ch ctx w w1 lst sha Hfetch Hsha Hne) in Hres.
      cbn [after_effects result] in Hres.
      rewrite apply_update_returns_nil in Hres. discriminate Hres.
    + rewrite (deployCmd_panicked h ch ctx w w1 lst p Hfetch Hsha) in Hres.
      discriminate Hres.
  - intros Habsent.
    rewrite (deployCmd_no_sha h ch ctx w w1 lst Hfetch
               (resolve_sha_none_present lst Habsent)).
    reflexivity.
Qed.

(** *** More on the deployment sequence *)

(** X4: when set image succeeds and rollout status reports failure,
    deploy sends the set-image output, then "ERROR: " followed by the
    rollout output as its last message, does not send the closing
    message after it, and returns nil. *)
Theorem rollout_failure_short_circuits
    (h : handler) (ch : string) (ctx : cli.Context) (w w1 w2 w3 : World)
    (lst : list github.RepositoryCommit) (sha b1 b2 : string) (e : error) :
  Repositories_ListCommits (fst (githubClientFromENV h))
    (GithubOrg h) (GithubRepo h) w = ((lst, None), w1) ->
  resolve_sha lst = Done sha ->
  sha <> "" ->
  CombinedOutput "kubectl" (set_image_args h (image_ref h sha)) w1 =
    ((b1, None), w2) ->
  CombinedOutput "kubectl" (rollout_status_args h) w2 = ((b2, Some e), w3) ->
  let r := deployCmd h (chat_printer ch) ctx w in
  r = {| effects := [SendMessage "about to deploy" ch;
                     ListCommits (GithubOrg h) (GithubRepo h);
                     SendMessage (Itoa (length lst) +++ " commits") ch;
                     SendMessage ("deploying image " +++ image_ref h sha) ch;
                     Exec "kubectl" (set_image_args h (image_ref h sha));
                     SendMessage b1 ch;
                     Exec "kubectl" (rollout_status_args h);
                     SendMessage ("ERROR: " +++ b2) ch];
         after := w3;
         result := Done None |} /\
  last (sent (effects r)) ("", "") = ("ERROR: " +++ b2, ch) /\
  last (sent (effects r)) ("", "") <> ("finished deployment", ch).
Proof.
  intros Hfetch Hsha Hne Hset Hroll r.
  assert (Hr : r = {| effects := [SendMessage "about to deploy" ch;
                     ListCommits (GithubOrg h) (GithubRepo h);
                     SendMessage (Itoa (length lst) +++ " commits") ch;
                     SendMessage ("deploying image " +++ image_ref h sha) ch;
                     Exec "kubectl" (set_image_args h (image_ref h sha));
                     SendMessage b1 ch;
                     Exec "kubectl" (rollout_status_args h);
                     SendMessage ("ERROR: " +++ b2) ch];
         after := w3;
         result := Done None |}).
  { unfold r. rewrite (deployCmd_resolved h ch ctx w w1 lst sha Hfetch Hsha Hne).
    rewrite (apply_update_rollout_failed h ch _ w1 w2 w3 b1 b2 e Hset Hroll).
    reflexivity. }
  rewrite Hr. split; [reflexivity|]. split; [reflexivity|].
  simpl. discriminate.
Qed.

(** X5: when the commit fetch fails, deploy returns that error, having
    sent "about to deploy" and nothing else and run no subprocess. *)
Theorem fetch_failure_is_returned
    (h : handler) (ch : string) (ctx : cli.Context) (w w1 : World)
    (lst : list github.RepositoryCommit) (e : error) :
  Repositories_ListCommits (fst (githubClientFromENV h))
    (GithubOrg h) (GithubRepo h) w = ((lst, Some e), w1) ->
  let r := deployCmd h (chat_printer ch) ctx w in
  result r = Done (Some e) /\
  sent (effects r) = [("about to deploy", ch)] /\
  execs (effects r) = [] /\
  after r = w1.
Proof.
  intros Hfetch r. unfold r.
  rewrite (deployCmd_fetch_failed h ch ctx w w1 lst e Hfetch).
  repeat split.
Qed.

Lemma resolve_sha_length (lst : list github.RepositoryCommit) (sha : string) :
  resolve_sha lst = Done sha -> sha <> "" -> len sha = 12.
Proof.
  induction lst as [|c rest IH]; simpl; intros Hres Hne.
  - injection Hres as <-. congruence.
  - destruct (github.SHA c) as [s|]; [|exact (IH Hres Hne)].
    apply slice_12_done in Hres. destruct Hres as [Hlen ->].
    apply substring_0_length, Hlen.
Qed.

(** X6: whatever GitHub and kubectl answer, deploy first sends "about to
    deploy", fetches the commits of the configured repository exactly
    once, and runs either no subprocess, or set image alone, or set image
    followed by rollout status, the image being tagged with a revision of
    12 bytes. *)
Theorem deploy_calls_in_order
    (h : handler) (ch : string) (ctx : cli.Context) (w : World) :
  let r := deployCmd h (chat_printer ch) ctx w in
  hd_error (effects r) = Some (SendMessage "about to deploy" ch) /\
  fetches (effects r) = [(GithubOrg h, GithubRepo h)] /\
  (execs (effects r) = [] \/
   exists sha : string,
     len sha = 12 /\
     (execs (effects r) =
        [("kubectl", set_image_args h (image_ref h sha))] \/
      execs (effects r) =
        [("kubectl", set_image_args h (image_ref h sha));
         ("kubectl", rollout_status_args h)])).
Proof.
  intros r. unfold r.
  destruct (Repositories_ListCommits (fst (githubClientFromENV h))
              (GithubOrg h) (GithubRepo h) w) as [[lst [e|]] w1] eqn:Hfetch.
  { rewrite (deployCmd_fetch_failed h ch ctx w w1 lst e Hfetch).
    repeat split. left. reflexivity. }
  destruct (resolve_sha lst) as [sha|p] eqn:Hsha.
  2:{ rewrite (deployCmd_panicked h ch ctx w w1 lst p Hfetch Hsha).
      repeat split. left. reflexivity. }
  destruct (String.eqb_spec sha "") as [Hempty|Hne].
  { subst sha. rewrite (deployCmd_no_sha h ch ctx w w1 lst Hfetch Hsha).
    repeat split. left. reflexivity. }
  rewrite (deployCmd_resolved h ch ctx w w1 lst sha Hfetch Hsha Hne).
  pose proof (resolve_sha_length lst sha Hsha Hne) as Hlen.
  destruct (CombinedOutput "kubectl" (set_image_args h (image_ref h sha)) w1)
    as [[b1 [e1|]] w2] eqn:Hset.
  { rewrite (apply_update_set_image_failed h ch _ w1 w2 b1 e1 Hset).
    repeat split. right. exists sha. split; [exact Hlen|]. left. reflexivity. }
  destruct (CombinedOutput "kubectl" (rollout_status_args h) w2)
    as [[b2 [e2|]] w3] eqn:Hroll.
  { rewrite (apply_update_rollout_failed h ch _ w1 w2 w3 b1 b2 e2 Hset Hroll).
    repeat split. right. exists sha. split; [exact Hlen|]. right. reflexivity. }
  rewrite (apply_update_succeeded h ch _ w1 w2 w3 b1 b2 Hset Hroll).
  repeat split. right. exists sha. split; [exact Hlen|]. right. reflexivity.
Qed.


(** *** More on the pods handler *)

(** X8: whatever kubectl answers, the pods handler first sends "about to
    list pods", runs exactly one subprocess, [kubectl get pods], with
    [-n] and the namespace added exactly when the namespace flag is not
    empty, fetches no commits, and returns nil. *)
Theorem pods_runs_one_kubectl
    (ch : string) (ctx : cli.Context) (w : World) :
  let n := cli.String_ ctx "namespace" in
  let r := podsCmd (chat_printer ch) ctx w in
  hd_error (effects r) = Some (SendMessage "about to list pods" ch) /\
  execs (effects r) =
    [("kubectl",
      if (n =? "")%string then ["get"; "pods"] else ["get"; "pods"; "-n"; n])] /\
  fetches (effects r) = [] /\
  result r = Done None.
Proof.
  intros n r. unfold r, podsCmd. fold n. run_monad.
  destruct (n =? "")%string; cbn [List.app];
    match goal with
    | |- context [CombinedOutput ?c ?a w] =>
        destruct (CombinedOutput c a w) as [[b [e|]] w1]
    end; repeat split.
Qed.

(** *** More on startup *)

(** X9: the list of channels the guard counts holds, in the order of
    the listing, the identifiers of the channels that have the user
    among their members, and no other. *)
Theorem member_channels_are_the_memberships
    (lst : list slack.Channel) (user : string) :
  (forall members : list string,
     is_member members user = true <-> In user members) /\
  member_channels lst user =
    map slack.ID (filter (fun c => is_member (slack.Members c) user) lst) /\
  (forall id : string,
     In id (member_channels lst user) <->
     exists c : slack.Channel,
       In c lst /\ slack.ID c = id /\ In user (slack.Members c)).
Proof.
  assert (Hmember : forall members : list string,
            is_member members user = true <-> In user members).
  { induction members as [|m rest IH]; simpl.
    - split; [discriminate | contradiction].
    - destruct (String.eqb_spec m user) as [->|Hne].
      + split; auto.
      + rewrite IH. split; [auto|]. intros [Heq|Hin]; [contradiction|exact Hin]. }
  assert (Hfilter : member_channels lst user =
            map slack.ID (filter (fun c => is_member (slack.Members c) user) lst)).
  { induction lst as [|c rest IH]; simpl; [reflexivity|].
    destruct (is_member (slack.Members c) user); simpl; rewrite IH; reflexivity. }
  split; [exact Hmember|]. split; [exact Hfilter|].
  intros id. rewrite Hfilter, in_map_iff. split.
  - intros [c [Hid Hin]]. apply filter_In in Hin. destruct Hin as [Hin Hm].
    exists c. repeat split; [exact Hin | exact Hid | apply Hmember, Hm].
  - intros [c [Hin [Hid Hm]]]. exists c. split; [exact Hid|].
    apply filter_In. split; [exact Hin | apply Hmember, Hm].
Qed.

(** X10: when the authentication handshake fails, [run] returns its
    error before anything is logged, listed or read, and [main] ends
    fatally with it. *)
Theorem auth_failure_is_fatal
    (h : handler) (w : World) (rsp : slack.AuthTestResponse) (e : error) :
  slack.AuthTest (slack_New (SlackToken h)) = (rsp, Some e) ->
  run h w = {| effects := []; after := w; result := Done (Some e) |} /\
  (h = fst newHandler ->
   main w = {| effects := []; after := w; result := Done (Fatal e) |}).
Proof.
  intros Hauth.
  assert (Hrun : run h w =
            {| effects := []; after := w; result := Done (Some e) |}).
  { unfold run. cbv zeta. rewrite Hauth. reflexivity. }
  split; [exact Hrun|].
  intros Hh. unfold main.
  change newHandler with (fst newHandler, @None error).
  rewrite <- Hh. unfold bind. rewrite Hrun. reflexivity.
Qed.

(** X11: when the channel listing fails, [run] returns its error after
    logging the bot's user id and before reading any event, and [main]
    ends fatally with it. *)
Theorem channel_listing_failure_is_fatal
    (h : handler) (w : World) (rsp : slack.AuthTestResponse)
    (lst : list slack.Channel) (e : error) :
  slack.AuthTest (slack_New (SlackToken h)) = (rsp, None) ->
  slack.GetChannels (slack_New (SlackToken h)) true = (lst, Some e) ->
  run h w =
    {| effects := [Log (slack.UserID rsp) []];
       after := w;
       result := Done (Some e) |} /\
  (h = fst newHandler ->
   main w =
     {| effects := [Log (slack.UserID rsp) []];
        after := w;
        result := Done (Fatal e) |}).
Proof.
  intros Hauth Hchannels.
  assert (Hrun : run h w =
            {| effects := [Log (slack.UserID rsp) []];
               after := w;
               result := Done (Some e) |}).
  { unfold run. cbv zeta. rewrite Hauth, Hchannels. reflexivity. }
  split; [exact Hrun|].
  intros Hh. unfold main.
  change newHandler with (fst newHandler, @None error).
  rewrite <- Hh. unfold bind. rewrite Hrun. reflexivity.
Qed.

(** *** More on the event loop *)

Lemma bind_assoc {A B C} (m : M A) (k : A -> M B) (k' : B -> M C) (w : World) :
  bind (bind m k) k' w = bind m (fun a => bind (k a) k') w.
Proof.
  unfold bind. destruct (m w) as [t1 w1 [a|p]]; simpl; [|reflexivity].
  destruct (k a w1) as [t2 w2 [b|p]]; simpl; [|reflexivity].
  rewrite <- app_assoc. reflexivity.
Qed.

Lemma bind_ext {A B} (m : M A) (k k' : A -> M B) (w : World) :
  (forall (a : A) (w1 : World), k a w1 = k' a w1) ->
  bind m k w = bind m k' w.
Proof.
  intros Hk. unfold bind. destruct (result (m w)); [rewrite Hk|]; reflexivity.
Qed.

Lemma on_event_no_command (h : handler) (UserID channelID : string)
    (c : slack.RTMEvent) (w : World) :
  no_command UserID c = true ->
  on_event h UserID channelID c w =
  {| effects := quiet_effects channelID c; after := w; result := Done tt |}.
Proof.
  unfold no_command, quiet_effects, is_hello.
  destruct (slack.Data c) as [|cc|name] eqn:Hdata; intros Hquiet.
  - apply on_event_hello, Hdata.
  - apply on_event_filtered with (cc := cc); [exact Hdata|].
    apply orb_true_iff in Hquiet. destruct Hquiet as [Hself|Hmarker].
    + left. apply String.eqb_eq, Hself.
    + right. apply negb_true_iff, Hmarker.
  - unfold on_event, event_log. rewrite Hdata. reflexivity.
Qed.

Lemma sent_quiet_effects (channelID : string) (c : slack.RTMEvent)
    (t : list effect) :
  sent (quiet_effects channelID c ++ t) =
  (if is_hello c then [("Hi there", channelID)] else []) ++ sent t.
Proof. unfold quiet_effects. destruct (is_hello c); reflexivity. Qed.

Lemma execs_quiet_effects (channelID : string) (c : slack.RTMEvent)
    (t : list effect) :
  execs (quiet_effects channelID c ++ t) = execs t.
Proof. unfold quiet_effects. destruct (is_hello c); reflexivity. Qed.

Lemma fetches_quiet_effects (channelID : string) (c : slack.RTMEvent)
    (t : list effect) :
  fetches (quiet_effects channelID c ++ t) = fetches t.
Proof. unfold quiet_effects. destruct (is_hello c); reflexivity. Qed.

(** X12: a feed in which no event reaches a command (greetings, events
    of other kinds, the bot's own messages, text without the marker)
    leaves the world as it was: one log line per event, one "Hi there"
    to the active channel per connection greeting, in feed order, and no
    other chat message, subprocess or commit fetch. *)
Theorem quiet_feed_reaches_no_command
    (h : handler) (UserID channelID : string)
    (feed : list slack.RTMEvent) (w : World) :
  forallb (no_command UserID) feed = true ->
  let r := range_events h UserID channelID feed w in
  r = {| effects := flat_map (quiet_effects channelID) feed;
         after := w;
         result := Done tt |} /\
  sent (effects r) =
    map (fun _ => ("Hi there", channelID)) (filter is_hello feed) /\
  execs (effects r) = [] /\
  fetches (effects r) = [].
Proof.
  intros Hquiet r.
  assert (Hr : r = {| effects := flat_map (quiet_effects channelID) feed;
                      after := w;
                      result := Done tt |}).
  { unfold r. clear r. induction feed as [|c rest IH]; [reflexivity|].
    simpl in Hquiet. apply andb_true_iff in Hquiet.
    destruct Hquiet as [Hc Hrest].
    rewrite range_events_cons. unfold bind.
    rewrite (on_event_no_command h UserID channelID c w Hc).
    cbn [result after effects]. rewrite (IH Hrest). reflexivity. }
  rewrite Hr. cbn [effects]. clear Hr r Hquiet.
  split; [reflexivity|].
  induction feed as [|c rest [IHs [IHe IHf]]]; [repeat split|].
  cbn [flat_map filter].
  rewrite sent_quiet_effects, execs_quiet_effects, fetches_quiet_effects.
  rewrite IHs. repeat split; [|exact IHe|exact IHf].
  destruct (is_hello c); reflexivity.
Qed.

(** X13: when the tokenizer rejects the text of a command message, the
    loop sends "error: " followed by the tokenizer's message to the
    message's channel, calls no handler, and goes on with the next
    event. *)
Theorem tokenizer_error_is_reported
    (h : handler) (UserID channelID : string) (c : slack.RTMEvent)
    (cc : slack.MessageEvent) (tokens : list string) (e : error)
    (rest : list slack.RTMEvent) (w : World) :
  slack.Data c = slack.Message cc ->
  slack.User cc <> UserID ->
  HasPrefix (slack.Text cc) "!" = true ->
  shellwords_Parse (TrimPrefix (slack.Text cc) "!") = (tokens, Some e) ->
  on_event h UserID channelID c w =
    {| effects := [event_log c;
                   SendMessage ("error: " +++ e) (slack.Channel_ cc)];
       after := w;
       result := Done tt |} /\
  range_events h UserID channelID (c :: rest) w =
    after_effects
      [event_log c; SendMessage ("error: " +++ e) (slack.Channel_ cc)]
      (range_events h UserID channelID rest w).
Proof.
  intros Hdata Hother Hmarker Hparse.
  pose proof (on_event_parse_failed h UserID channelID c cc tokens e w
                Hdata Hother Hmarker Hparse) as Hev.
  split; [exact Hev|].
  rewrite range_events_cons. unfold bind. rewrite Hev. reflexivity.
Qed.

Lemma range_events_app_bind (h : handler) (UserID channelID : string)
    (feed1 feed2 : list slack.RTMEvent) (w : World) :
  range_events h UserID channelID (feed1 ++ feed2) w =
  bind (range_events h UserID channelID feed1)
       (fun _ => range_events h UserID channelID feed2) w.
Proof.
  revert w. induction feed1 as [|c rest IH]; intros w.
  - cbn [List.app range_events]. unfold bind, ret. cbn [result after effects].
    destruct (range_events h UserID channelID feed2 w); reflexivity.
  - cbn [List.app range_events]. rewrite bind_assoc.
    apply bind_ext. intros _ w1. apply IH.
Qed.

(** X14: the loop handles a feed strictly in order: the run over two
    feeds one after the other is the run over the first followed, from
    the world it leaves, by the run over the second; and when handling
    the first panics, no event of the second is handled. *)
Theorem feed_is_handled_in_order
    (h : handler) (UserID channelID : string)
    (feed1 feed2 : list slack.RTMEvent) (w : World) :
  let r1 := range_events h UserID channelID feed1 w in
  let r2 := range_events h UserID channelID feed2 (after r1) in
  let r := range_events h UserID channelID (feed1 ++ feed2) w in
  (result r1 = Done tt ->
   effects r = effects r1 ++ effects r2 /\
   after r = after r2 /\
   result r = result r2) /\
  (forall p : panic, result r1 = Panicked p -> r = r1).
Proof.
  intros r1 r2 r. unfold r. rewrite range_events_app_bind. unfold bind.
  fold r1. split.
  - intros Hdone. rewrite Hdone. cbn [effects after result]. fold r2.
    repeat split.
  - intros p Hp. rewrite Hp. destruct r1 as [t w1 o].
    cbn [result] in Hp. subst o. reflexivity.
Qed.

Lemma substring_0_all (s : string) : substring 0 (String.length s) s = s.
Proof. induction s as [|c s IH]; simpl; [|rewrite IH]; reflexivity. Qed.

Lemma HasPrefix_marker (text : string) : HasPrefix ("!" +++ text) "!" = true.
Proof. destruct text; reflexivity. Qed.

Lemma TrimPrefix_marker (text : string) : TrimPrefix ("!" +++ text) "!" = text.
Proof.
  unfold TrimPrefix. rewrite HasPrefix_marker. simpl.
  rewrite Nat.sub_0_r. apply substring_0_all.
Qed.

(** X15: exactly one leading "!" is taken off before tokenizing: the
    message "!" followed by a text from another user has that text
    tokenized and the tokens dispatched after the program name "foo",
    with the buffer flushed to the message's channel; and a text with the
    marker is the marker followed by what is tokenized. *)
Theorem marker_is_stripped_once
    (h : handler) (UserID channelID : string) (c : slack.RTMEvent)
    (cc : slack.MessageEvent) (text : string) (tokens : list string)
    (w : World) :
  slack.Data c = slack.Message cc ->
  slack.User cc <> UserID ->
  slack.Text cc = "!" +++ text ->
  shellwords_Parse text = (tokens, None) ->
  TrimPrefix (slack.Text cc) "!" = text /\
  (forall s : string, HasPrefix s "!" = true -> s = "!" +++ TrimPrefix s "!") /\
  on_event h UserID channelID c w =
    after_effects [event_log c]
      ((buf <- App_Run (app h (chat_printer (slack.Channel_ cc)))
                 ("foo" :: tokens) ;;
        flush (slack.Channel_ cc) buf) w).
Proof.
  intros Hdata Hother Htext Hparse.
  assert (Htrim : TrimPrefix (slack.Text cc) "!" = text)
    by (rewrite Htext; apply TrimPrefix_marker).
  split; [exact Htrim|]. split.
  - intros s Hs. unfold HasPrefix in Hs.
    destruct s as [|a s]; cbn [String.prefix] in Hs; [discriminate Hs|].
    destruct (ascii_dec "!" a) as [<-|]; [|discriminate Hs].
    change (String "!" s) with ("!" +++ s).
    rewrite TrimPrefix_marker. reflexivity.
  - apply on_event_dispatched with (tokens := tokens);
      [exact Hdata | exact Hother | | rewrite Htrim; exact Hparse].
    rewrite Htext. apply HasPrefix_marker.
Qed.

(** *** Panics *)















(** *** Where the whole run sends *)

Lemma addressed_to_within (ch : string) (chs : list string) (t : list effect) :
  In ch chs -> Forall (addressed_to ch) t -> Forall (addressed_within chs) t.
Proof.
  intros Hin Ht. eapply Forall_impl; [|exact Ht].
  intros [ | text channel | | ] H; simpl in *; try exact I.
  subst channel. exact Hin.
Qed.

Lemma addressed_within_incl (chs chs' : list string) (t : list effect) :
  incl chs chs' -> Forall (addressed_within chs) t ->
  Forall (addressed_within chs') t.
Proof.
  intros Hincl Ht. eapply Forall_impl; [|exact Ht].
  intros [ | text channel | | ] H; simpl in *; try exact I.
  apply Hincl, H.
Qed.

Lemma on_event_addressed (h : handler) (UserID channelID : string)
    (c : slack.RTMEvent) (w : World) :
  Forall (addressed_within (channelID :: heard_channels [c]))
    (effects (on_event h UserID channelID c w)).
Proof.
  cbn [heard_channels]. destruct (slack.Data c) as [|cc|name] eqn:Hdata.
  - rewrite (on_event_hello h UserID channelID c w Hdata).
    repeat constructor.
  - apply addressed_to_within with (ch := slack.Channel_ cc);
      [right; left; reflexivity|].
    apply sends_to_on_message, Hdata.
  - unfold on_event. rewrite Hdata. repeat constructor.
Qed.

(** X17: over a whole feed the loop writes only where it was spoken to:
    every chat message it sends goes to the active channel or to the
    channel of a text message of the feed. *)
Theorem run_sends_only_where_heard
    (h : handler) (UserID channelID : string)
    (feed : list slack.RTMEvent) (w : World) :
  Forall (addressed_within (channelID :: heard_channels feed))
    (effects (range_events h UserID channelID feed w)).
Proof.
  revert w. induction feed as [|c rest IH]; intros w; [constructor|].
  rewrite range_events_cons. unfold bind.
  pose proof (on_event_addressed h UserID channelID c w) as Hc.
  assert (Hincl1 : incl (channelID :: heard_channels [c])
                        (channelID :: heard_channels (c :: rest))).
  { cbn [heard_channels]. destruct (slack.Data c); intros x Hx; simpl in *;
      tauto. }
  assert (Hincl2 : incl (channelID :: heard_channels rest)
                        (channelID :: heard_channels (c :: rest))).
  { cbn [heard_channels]. destruct (slack.Data c); intros x Hx; simpl in *;
      tauto. }
  destruct (on_event h UserID channelID c w) as [t w1 [[]|p]];
    cbn [result after effects] in *.
  - apply Forall_app. split.
    + apply (addressed_within_incl _ _ _ Hincl1 Hc).
    + apply (addressed_within_incl _ _ _ Hincl2 (IH w1)).
  - apply (addressed_within_incl _ _ _ Hincl1 Hc).
Qed.

End Bot.

Arguments effects {World A} r.
Arguments after {World A} r.
Arguments result {World A} r.

(** ** Concrete runs in the scripted world *)

Local Abbreviation deploy :=
  (deployCmd Script.world Script.CombinedOutput Script.ListCommits).
Local Abbreviation pods := (podsCmd Script.world Script.CombinedOutput).
Local Abbreviation to_chat := (chat_printer Script.world).
Local Abbreviation handle :=
  (on_event Script.world Script.CombinedOutput Script.ListCommits
     Script.Parse Script.usage Script.parse).

(** The example of the specification, with the first identifier absent:
    the short revision is "abcdef123456". *)
Lemma short_revision_of_first_present_sha_witness :
  let w := Script.scripted [Script.no_sha; Script.commit "abcdef1234567890"]
             (Script.ok "image updated") (Script.ok "rolled out") (Script.ok "") in
  resolve_sha [Script.no_sha; Script.commit "abcdef1234567890"] =
    Done "abcdef123456" /\
  deploy Script.config (to_chat "C1") [] w =
    {| effects :=
         [SendMessage "about to deploy" "C1";
          ListCommits "org" "repo";
          SendMessage "2 commits" "C1";
          SendMessage "deploying image myimage:abcdef123456" "C1";
          Exec "kubectl" ["-n"; "prod"; "set"; "image"; "deployments/web";
                          "*=myimage:abcdef123456"];
          SendMessage "image updated" "C1";
          Exec "kubectl" ["-n"; "prod"; "rollout"; "status"; "deployments/web"];
          SendMessage "rolled out" "C1";
          SendMessage "finished deployment" "C1"];
       after := w;
       result := Done None |}.
Proof.
  intros w.
  apply (short_revision_of_first_present_sha
           Script.world Script.CombinedOutput Script.ListCommits
           Script.config "C1" [] w w [Script.no_sha] []
           (Script.commit "abcdef1234567890") "abcdef1234567890").
  - repeat constructor.
  - reflexivity.
  - simpl. lia.
  - reflexivity.
Defined.

(** The example of the specification as written, with the first
    identifier the empty string: the slice of the empty string is out of
    bounds, and no short revision is resolved. *)
Lemma empty_sha_is_not_skipped :
  let lst := [Script.commit ""; Script.commit "abcdef1234567890"] in
  let w := Script.scripted lst
             (Script.ok "image updated") (Script.ok "rolled out") (Script.ok "") in
  resolve_sha lst = Panicked (SliceBoundsOutOfRange 12 0) /\
  resolve_sha lst <> Done "abcdef123456" /\
  deploy Script.config (to_chat "C1") [] w =
    {| effects := [SendMessage "about to deploy" "C1"; ListCommits "org" "repo"];
       after := w;
       result := Panicked (SliceBoundsOutOfRange 12 0) |}.
Proof.
  intros lst w. split; [reflexivity|]. split; [discriminate|]. reflexivity.
Qed.

Lemma short_sha_slice_out_of_bounds_witness :
  let lst := [Script.no_sha; Script.commit "abc"; Script.commit "abcdef1234567890"] in
  let w := Script.scripted lst
             (Script.ok "image updated") (Script.ok "rolled out") (Script.ok "") in
  slice "abc" 0 12 = Panicked (SliceBoundsOutOfRange 12 3) /\
  resolve_sha lst = Panicked (SliceBoundsOutOfRange 12 3) /\
  deploy Script.config (to_chat "C1") [] w =
    {| effects := [SendMessage "about to deploy" "C1"; ListCommits "org" "repo"];
       after := w;
       result := Panicked (SliceBoundsOutOfRange 12 3) |}.
Proof.
  intros lst w.
  apply (short_sha_slice_out_of_bounds
           Script.world Script.CombinedOutput Script.ListCommits
           Script.config "C1" [] w w [Script.no_sha]
           [Script.commit "abcdef1234567890"] (Script.commit "abc") "abc").
  - repeat constructor.
  - reflexivity.
  - simpl. lia.
  - reflexivity.
Defined.

Lemma no_present_sha_is_terminal_witness :
  let w := Script.scripted [Script.no_sha; Script.no_sha]
             (Script.ok "image updated") (Script.ok "rolled out") (Script.ok "") in
  let r := deploy Script.config (to_chat "C1") [] w in
  r = {| effects := [SendMessage "about to deploy" "C1"; ListCommits "org" "repo"];
         after := w;
         result := Done (Some "no sha found") |} /\
  sent (effects r) = [("about to deploy", "C1")] /\
  execs (effects r) = [].
Proof.
  intros w.
  apply (no_present_sha_is_terminal
           Script.world Script.CombinedOutput Script.ListCommits
           Script.config "C1" [] w w [Script.no_sha; Script.no_sha]).
  - repeat constructor.
  - reflexivity.
Defined.

(** A list in which no commit has a non-empty identifier, and on which
    deploy does not report "no sha found": it panics. *)
Lemma empty_sha_is_not_no_sha_found :
  let lst := [Script.commit ""] in
  let w := Script.scripted lst
             (Script.ok "image updated") (Script.ok "rolled out") (Script.ok "") in
  let r := deploy Script.config (to_chat "C1") [] w in
  Forall (fun c => forall s, github.SHA c = Some s -> s = "") lst /\
  result r = Panicked (SliceBoundsOutOfRange 12 0) /\
  result r <> Done (Some "no sha found").
Proof.
  intros lst w r. split; [|split].
  - repeat constructor. intros s Hs. injection Hs as <-. reflexivity.
  - reflexivity.
  - discriminate.
Qed.

Lemma set_image_failure_short_circuits_witness :
  let w := Script.scripted [Script.commit "abcdef1234567890"]
             (Script.failed "deployment not found") (Script.ok "rolled out")
             (Script.ok "") in
  let r := deploy Script.config (to_chat "C1") [] w in
  r = {| effects :=
           [SendMessage "about to deploy" "C1";
            ListCommits "org" "repo";
            SendMessage "1 commits" "C1";
            SendMessage "deploying image myimage:abcdef123456" "C1";
            Exec "kubectl" ["-n"; "prod"; "set"; "image"; "deployments/web";
                            "*=myimage:abcdef123456"];
            SendMessage "ERROR: deployment not found" "C1"];
         after := w;
         result := Done None |} /\
  execs (effects r) =
    [("kubectl", ["-n"; "prod"; "set"; "image"; "deployments/web";
                  "*=myimage:abcdef123456"])] /\
  last (sent (effects r)) ("", "") = ("ERROR: deployment not found", "C1").
Proof.
  intros w.
  apply (set_image_failure_short_circuits
           Script.world Script.CombinedOutput Script.ListCommits
           Script.config "C1" [] w w w [Script.commit "abcdef1234567890"]
           "abcdef123456" "deployment not found" "exit status 1").
  - reflexivity.
  - reflexivity.
  - discriminate.
  - reflexivity.
Defined.

Lemma deploy_success_path_witness :
  let w := Script.scripted [Script.commit "1234567890ab"]
             (Script.ok "image updated") (Script.ok "rolled out") (Script.ok "") in
  let r := deploy Script.config (to_chat "C1") [] w in
  sent (effects r) =
    [("about to deploy", "C1"); ("1 commits", "C1");
     ("deploying image myimage:1234567890ab", "C1");
     ("image updated", "C1"); ("rolled out", "C1");
     ("finished deployment", "C1")] /\
  result r = Done None /\
  image_ref Script.config "1234567890ab" = "myimage:1234567890ab".
Proof.
  intros w r.
  destruct (deploy_success_path
              Script.world Script.CombinedOutput Script.ListCommits
              Script.config "C1" [] w w w w [Script.commit "1234567890ab"]
              "1234567890ab" "image updated" "rolled out")
    as [[_ [Hsent [_ Hresult]]] [Himage _]].
  - reflexivity.
  - reflexivity.
  - discriminate.
  - reflexivity.
  - reflexivity.
  - split; [exact Hsent|]. split; [exact Hresult|].
    apply Himage; reflexivity.
Defined.

Lemma pods_failure_is_logged_only_witness :
  let w := Script.scripted [] (Script.ok "") (Script.ok "")
             (Script.failed "connection refused") in
  let r := pods (to_chat "C1") [("namespace", "kube-system")] w in
  r = {| effects :=
           [SendMessage "about to list pods" "C1";
            Exec "kubectl" ["get"; "pods"; "-n"; "kube-system"];
            Log "err=%q" ["connection refused"]];
         after := w;
         result := Done None |} /\
  sent (effects r) = [("about to list pods", "C1")].
Proof.
  intros w r.
  destruct (pods_failure_is_logged_only
              Script.world Script.CombinedOutput
              "C1" [("namespace", "kube-system")] w w
              "connection refused" (Some "exit status 1"))
    as [Hr [Hfailed _]].
  - reflexivity.
  - split; [exact Hr|]. apply Hfailed. discriminate.
Defined.

Lemma filtered_messages_are_discarded_witness :
  let w := Script.scripted [Script.commit "abcdef1234567890"]
             (Script.ok "image updated") (Script.ok "rolled out") (Script.ok "") in
  let echo := Script.message "U1" "!deploy" "C1" in
  handle Script.config "U1" "C1" echo w =
    {| effects := [Log "%s %T" ["message"; "*slack.MessageEvent"]];
       after := w;
       result := Done tt |} /\
  sent (effects (handle Script.config "U1" "C1" echo w)) = [] /\
  execs (effects (handle Script.config "U1" "C1" echo w)) = [].
Proof.
  intros w echo.
  destruct (filtered_messages_are_discarded
              Script.world Script.CombinedOutput Script.ListCommits
              Script.Parse Script.usage Script.parse
              Script.config "U1" "C1" echo
              {| slack.User := "U1"; slack.Text := "!deploy";
                 slack.Channel_ := "C1" |} [] w)
    as [Hev [Hsent [Hexecs _]]].
  - reflexivity.
  - left. reflexivity.
  - split; [exact Hev|]. split; [exact Hsent | exact Hexecs].
Defined.

Lemma unknown_command_flushes_buffer_witness :
  let w := Script.scripted [] (Script.ok "") (Script.ok "") (Script.ok "") in
  let r := handle Script.config "U1" "C1"
             (Script.message "U2" "!restart now" "C1") w in
  effects r =
    [Log "%s %T" ["message"; "*slack.MessageEvent"];
     SendMessage "```No help topic for 'restart'```" "C1"] /\
  after r = w /\
  result r = Done tt.
Proof.
  intros w r.
  destruct (unknown_command_flushes_buffer
              Script.world Script.CombinedOutput Script.ListCommits
              Script.Parse Script.usage Script.parse
              Script.config "U1" "C1"
              (Script.message "U2" "!restart now" "C1")
              {| slack.User := "U2"; slack.Text := "!restart now";
                 slack.Channel_ := "C1" |} ["restart"; "now"] w)
    as [_ [_ [Hafter [Hresult [Hflush _]]]]].
  - reflexivity.
  - discriminate.
  - reflexivity.
  - reflexivity.
  - discriminate.
  - discriminate.
  - split; [|split; [exact Hafter | exact Hresult]].
    apply Hflush. discriminate.
Defined.


Lemma single_channel_guard_witness :
  let w := Script.scripted [] (Script.ok "") (Script.ok "") (Script.ok "") in
  let listing :=
    [ {| slack.ID := "C1"; slack.Members := ["U1"; "U2"] |};
      {| slack.ID := "C2"; slack.Members := ["U3"] |};
      {| slack.ID := "C3"; slack.Members := ["U2"; "U1"] |} ] in
  let New := Script.client "U1" listing
               [Script.hello; Script.message "U2" "!pods" "C1"] in
  member_channels listing "U1" = ["C1"; "C3"] /\
  run Script.world Script.CombinedOutput Script.ListCommits New
      Script.Parse Script.usage Script.parse Script.config w =
    {| effects := [Log "U1" []];
       after := w;
       result := Done (Some "must only be in one channel") |} /\
  main Script.world Script.CombinedOutput Script.ListCommits New
       Script.Parse Script.Getenv Script.usage Script.parse w =
    {| effects := [Log "U1" []];
       after := w;
       result := Done (Fatal "must only be in one channel") |}.
Proof.
  intros w listing New.
  destruct (single_channel_guard
              Script.world Script.CombinedOutput Script.ListCommits New
              Script.Parse Script.Getenv Script.usage Script.parse
              Script.config w {| slack.UserID := "U1" |} listing)
    as [Hguard _].
  - reflexivity.
  - reflexivity.
  - split; [reflexivity|].
    destruct Hguard as [Hrun Hmain]; [discriminate|].
    split; [exact Hrun | apply Hmain; reflexivity].
Defined.

(** With exactly one channel the feed is handled, and commands from any
    channel are answered where they came from. *)
Example run_in_one_channel :
  let w := Script.scripted [Script.commit "abcdef1234567890"]
             (Script.ok "image updated") (Script.failed "timed out")
             (Script.ok "web-1 Running") in
  let New := Script.client "U1"
               [ {| slack.ID := "C1"; slack.Members := ["U1"] |} ]
               [Script.hello;
                Script.message "U2" "hello bot" "C1";
                Script.message "U2" "!pods --namespace kube-system" "C2";
                Script.message "U2" "!deploy" "C1"] in
  sent (effects
    (run Script.world Script.CombinedOutput Script.ListCommits New
         Script.Parse Script.usage Script.parse Script.config w)) =
    [("Hi there", "C1");
     ("about to list pods", "C2");
     ("```web-1 Running```", "C2");
     ("about to deploy", "C1");
     ("1 commits", "C1");
     ("deploying image myimage:abcdef123456", "C1");
     ("image updated", "C1");
     ("ERROR: timed out", "C1")].
Proof. reflexivity. Qed.

(** The panic of the slice is not caught on its way up: a deploy command
    on a repository whose first identifier is short ends [main]. *)
Example short_sha_ends_main :
  let w := Script.scripted [Script.commit "abc"]
             (Script.ok "image updated") (Script.ok "rolled out") (Script.ok "") in
  let New := Script.client "U1"
               [ {| slack.ID := "C1"; slack.Members := ["U1"] |} ]
               [Script.message "U2" "!deploy" "C1";
                Script.message "U2" "!pods" "C1"] in
  let r := main Script.world Script.CombinedOutput Script.ListCommits New
                Script.Parse Script.Getenv Script.usage Script.parse w in
  result r = Panicked (SliceBoundsOutOfRange 12 3) /\
  sent (effects r) = [("about to deploy", "C1")].
Proof. split; reflexivity. Qed.

(** The error "no sha found" stops at the framework: the chat sees
    "about to deploy" and nothing else, and the loop goes on. *)
Example no_sha_found_is_swallowed :
  let w := Script.scripted [Script.no_sha]
             (Script.ok "image updated") (Script.ok "rolled out") (Script.ok "") in
  let r := handle Script.config "U1" "C1" (Script.message "U2" "!deploy" "C1") w in
  sent (effects r) = [("about to deploy", "C1")] /\
  execs (effects r) = [] /\
  result r = Done tt.
Proof. repeat split. Qed.

(** ** Concrete runs for the further properties *)

Lemma resolved_revision_comes_from_first_present_sha_witness :
  let lst := [Script.no_sha; Script.commit "abcdef1234567890"; Script.commit "ff"] in
  exists (skipped rest : list github.RepositoryCommit)
         (c : github.RepositoryCommit) (s : string),
    lst = skipped ++ c :: rest /\
    Forall absent skipped /\
    github.SHA c = Some s /\
    12 <= len s /\
    "abcdef123456" = substring 0 12 s /\
    len "abcdef123456" = 12 /\
    HasPrefix s "abcdef123456" = true.
Proof.
  intros lst.
  apply (resolved_revision_comes_from_first_present_sha lst "abcdef123456").
  - reflexivity.
  - discriminate.
Defined.

Lemma resolve_sha_ignores_later_commits_witness :
  resolve_sha [Script.no_sha; Script.commit "abcdef1234567890"; Script.commit "ff"] =
  resolve_sha [Script.no_sha; Script.commit "abcdef1234567890"].
Proof.
  apply (resolve_sha_ignores_later_commits
           [Script.no_sha] [Script.commit "ff"] []
           (Script.commit "abcdef1234567890")).
  discriminate.
Defined.

Lemma no_sha_found_iff_no_identifier_witness :
  let w := Script.scripted [Script.no_sha; Script.no_sha]
             (Script.ok "image updated") (Script.ok "rolled out") (Script.ok "") in
  result (deploy Script.config (to_chat "C1") [] w) = Done (Some "no sha found")
  <-> Forall absent [Script.no_sha; Script.no_sha].
Proof.
  intros w.
  apply (no_sha_found_iff_no_identifier
           Script.world Script.CombinedOutput Script.ListCommits
           Script.config "C1" [] w w [Script.no_sha; Script.no_sha]).
  reflexivity.
Defined.

Lemma rollout_failure_short_circuits_witness :
  let w := Script.scripted [Script.commit "abcdef1234567890"]
             (Script.ok "image updated") (Script.failed "timed out")
             (Script.ok "") in
  let r := deploy Script.config (to_chat "C1") [] w in
  r = {| effects :=
           [SendMessage "about to deploy" "C1";
            ListCommits "org" "repo";
            SendMessage "1 commits" "C1";
            SendMessage "deploying image myimage:abcdef123456" "C1";
            Exec "kubectl" ["-n"; "prod"; "set"; "image"; "deployments/web";
                            "*=myimage:abcdef123456"];
            SendMessage "image updated" "C1";
            Exec "kubectl" ["-n"; "prod"; "rollout"; "status"; "deployments/web"];
            SendMessage "ERROR: timed out" "C1"];
         after := w;
         result := Done None |} /\
  last (sent (effects r)) ("", "") = ("ERROR: timed out", "C1") /\
  last (sent (effects r)) ("", "") <> ("finished deployment", "C1").
Proof.
  intros w.
  apply (rollout_failure_short_circuits
           Script.world Script.CombinedOutput Script.ListCommits
           Script.config "C1" [] w w w w [Script.commit "abcdef1234567890"]
           "abcdef123456" "image updated" "timed out" "exit status 1").
  - reflexivity.
  - reflexivity.
  - discriminate.
  - reflexivity.
  - reflexivity.
Defined.

Lemma fetch_failure_is_returned_witness :
  let w := {| Script.commits := ([], Some "404 Not Found");
              Script.kubectl := Script.by_subcommand
                (Script.ok "") (Script.ok "") (Script.ok "") |} in
  let r := deploy Script.config (to_chat "C1") [] w in
  result r = Done (Some "404 Not Found") /\
  sent (effects r) = [("about to deploy", "C1")] /\
  execs (effects r) = [] /\
  after r = w.
Proof.
  intros w.
  apply (fetch_failure_is_returned
           Script.world Script.CombinedOutput Script.ListCommits
           Script.config "C1" [] w w [] "404 Not Found").
  reflexivity.
Defined.


Lemma auth_failure_is_fatal_witness :
  let w := Script.scripted [] (Script.ok "") (Script.ok "") (Script.ok "") in
  let New := Script.refused [Script.hello; Script.message "U2" "!pods" "C1"] in
  run Script.world Script.CombinedOutput Script.ListCommits New
      Script.Parse Script.usage Script.parse Script.config w =
    {| effects := []; after := w; result := Done (Some "invalid_auth") |} /\
  main Script.world Script.CombinedOutput Script.ListCommits New
       Script.Parse Script.Getenv Script.usage Script.parse w =
    {| effects := []; after := w; result := Done (Fatal "invalid_auth") |}.
Proof.
  intros w New.
  destruct (auth_failure_is_fatal
              Script.world Script.CombinedOutput Script.ListCommits New
              Script.Parse Script.Getenv Script.usage Script.parse
              Script.config w {| slack.UserID := "" |} "invalid_auth")
    as [Hrun Hmain].
  - reflexivity.
  - split; [exact Hrun | apply Hmain; reflexivity].
Defined.

Lemma channel_listing_failure_is_fatal_witness :
  let w := Script.scripted [] (Script.ok "") (Script.ok "") (Script.ok "") in
  let New := Script.unlisted "U1" [Script.hello] in
  run Script.world Script.CombinedOutput Script.ListCommits New
      Script.Parse Script.usage Script.parse Script.config w =
    {| effects := [Log "U1" []];
       after := w;
       result := Done (Some "ratelimited") |} /\
  main Script.world Script.CombinedOutput Script.ListCommits New
       Script.Parse Script.Getenv Script.usage Script.parse w =
    {| effects := [Log "U1" []];
       after := w;
       result := Done (Fatal "ratelimited") |}.
Proof.
  intros w New.
  destruct (channel_listing_failure_is_fatal
              Script.world Script.CombinedOutput Script.ListCommits New
              Script.Parse Script.Getenv Script.usage Script.parse
              Script.config w {| slack.UserID := "U1" |} [] "ratelimited")
    as [Hrun Hmain].
  - reflexivity.
  - reflexivity.
  - split; [exact Hrun | apply Hmain; reflexivity].
Defined.

Lemma quiet_feed_reaches_no_command_witness :
  let w := Script.scripted [Script.commit "abcdef1234567890"]
             (Script.ok "image updated") (Script.ok "rolled out") (Script.ok "") in
  let feed := [Script.hello;
               Script.message "U1" "!deploy" "C1";
               Script.typing;
               Script.message "U2" "good morning" "C2";
               Script.hello] in
  let r := range_events Script.world Script.CombinedOutput Script.ListCommits
             Script.Parse Script.usage Script.parse
             Script.config "U1" "C1" feed w in
  after r = w /\
  sent (effects r) = [("Hi there", "C1"); ("Hi there", "C1")] /\
  execs (effects r) = [] /\
  fetches (effects r) = [].
Proof.
  intros w feed r.
  destruct (quiet_feed_reaches_no_command
              Script.world Script.CombinedOutput Script.ListCommits
              Script.Parse Script.usage Script.parse
              Script.config "U1" "C1" feed w)
    as [Hr [Hsent [Hexecs Hfetches]]].
  - reflexivity.
  - split; [fold r in Hr; rewrite Hr; reflexivity|].
    split; [exact Hsent|]. split; [exact Hexecs | exact Hfetches].
Defined.

Lemma tokenizer_error_is_reported_witness :
  let w := Script.scripted [] (Script.ok "") (Script.ok "") (Script.ok "") in
  let c := Script.message "U2" "!pods 'kube" "C2" in
  on_event Script.world Script.CombinedOutput Script.ListCommits
    Script.unparsable Script.usage Script.parse Script.config "U1" "C1" c w =
    {| effects := [Log "%s %T" ["message"; "*slack.MessageEvent"];
                   SendMessage "error: invalid command line string" "C2"];
       after := w;
       result := Done tt |}.
Proof.
  intros w c.
  destruct (tokenizer_error_is_reported
              Script.world Script.CombinedOutput Script.ListCommits
              Script.unparsable Script.usage Script.parse
              Script.config "U1" "C1" c
              {| slack.User := "U2"; slack.Text := "!pods 'kube";
                 slack.Channel_ := "C2" |}
              [] "invalid command line string" [] w)
    as [Hev _].
  - reflexivity.
  - discriminate.
  - reflexivity.
  - reflexivity.
  - exact Hev.
Defined.

Lemma marker_is_stripped_once_witness :
  let w := Script.scripted [] (Script.ok "") (Script.ok "") (Script.ok "") in
  let c := Script.message "U2" "!!deploy" "C1" in
  TrimPrefix "!!deploy" "!" = "!deploy" /\
  sent (effects (handle Script.config "U1" "C1" c w)) =
    [("```No help topic for '!deploy'```", "C1")].
Proof.
  intros w c.
  destruct (marker_is_stripped_once
              Script.world Script.CombinedOutput Script.ListCommits
              Script.Parse Script.usage Script.parse
              Script.config "U1" "C1" c
              {| slack.User := "U2"; slack.Text := "!!deploy";
                 slack.Channel_ := "C1" |}
              "!deploy" ["!deploy"] w)
    as [Htrim [_ Hev]].
  - reflexivity.
  - discriminate.
  - reflexivity.
  - reflexivity.
  - split; [exact Htrim|]. rewrite Hev. reflexivity.
Defined.


(** After a panic the rest of the feed is not handled; without one the
    second part of the feed is handled from where the first left off. *)
Example panic_stops_the_feed :
  let w := Script.scripted [Script.commit "abc"]
             (Script.ok "image updated") (Script.ok "rolled out")
             (Script.ok "web-1 Running") in
  let loop := range_events Script.world Script.CombinedOutput Script.ListCommits
                Script.Parse Script.usage Script.parse Script.config "U1" "C1" in
  loop ([Script.message "U2" "!deploy" "C1"] ++ [Script.message "U2" "!pods" "C1"]) w =
    loop [Script.message "U2" "!deploy" "C1"] w /\
  sent (effects (loop ([Script.message "U2" "!pods" "C1"] ++
                       [Script.message "U2" "!deploy" "C1"]) w)) =
    [("about to list pods", "C1"); ("```web-1 Running```", "C1");
     ("about to deploy", "C1")].
Proof. split; reflexivity. Qed.
